(** * TicTacToe: a shallow embedding of [tictactoe.py]

    The Python program keeps the 3x3 grid in one list object of nine
    one-character strings (['_'] for an empty cell) that the [Game], the
    players and the minimax search all reach through references.  The
    embedding keeps the board a [list string], the Python list operations
    with their own failure behaviour, and every method a function that
    passes the list through explicitly. *)

From Stdlib Require Import ZArith String List Bool Lia.
From stdpp Require Import base list.
Import ListNotations.

Local Open Scope string_scope.
Local Open Scope Z_scope.

(** ** Results of running Python code *)

Inductive exn : Type := IndexError | TypeError.

(** [Diverge] is the model running out of the fuel that bounds the depth of
    recursive calls; it is not a behaviour of the program. *)
Inductive res (A : Type) : Type :=
| Ok (a : A)
| Raise (e : exn)
| Diverge.

Arguments Ok {A} a.
Arguments Raise {A} e.
Arguments Diverge {A}.

Definition bind {A B : Type} (m : res A) (k : A -> res B) : res B :=
  match m with
  | Ok a => k a
  | Raise e => Raise e
  | Diverge => Diverge
  end.

Notation "'do' x <- m ; k" := (bind m (fun x => k))
  (at level 10, x name, m at level 100, k at level 200, only parsing).

(** ** Python lists *)

Module PyList.

(** Python resolves an index [i] on a list of length [n]: [0 <= i < n] is
    the position itself, [-n <= i < 0] counts from the end, anything else
    raises [IndexError]. *)
Definition position (n : nat) (i : Z) : option nat :=
  if (0 <=? i) && (i <? Z.of_nat n) then Some (Z.to_nat i)
  else if (- Z.of_nat n <=? i) && (i <? 0) then Some (Z.to_nat (i + Z.of_nat n))
  else None.

Definition getitem {A : Type} (l : list A) (i : Z) : res A :=
  match position (length l) i with
  | Some k => match l !! k with Some x => Ok x | None => Raise IndexError end
  | None => Raise IndexError
  end.

Definition setitem {A : Type} (l : list A) (i : Z) (x : A) : res (list A) :=
  match position (length l) i with
  | Some k => Ok (<[k := x]> l)
  | None => Raise IndexError
  end.

(** [for index in range(9)] *)
Definition range9 : list Z := [0; 1; 2; 3; 4; 5; 6; 7; 8].

(** A [for] loop whose body updates the loop state and may raise. *)
Fixpoint for_each {S : Type} (idxs : list Z) (body : Z -> S -> res S) (s : S)
  : res S :=
  match idxs with
  | [] => Ok s
  | i :: rest => do s' <- body i s ; for_each rest body s'
  end.

End PyList.

Import PyList.

(** ** Game: the board and its rules *)

Definition EMPTY : string := "_".

(** [Game.win_conditions] *)
Definition win_conditions : list (Z * Z * Z) :=
  [ (0, 1, 2); (3, 4, 5); (6, 7, 8);
    (0, 3, 6); (1, 4, 7); (2, 5, 8);
    (0, 4, 8); (2, 4, 6) ].

(** The chained comparison [board[a] == board[b] == board[c] == mark]:
    operands are evaluated left to right, once each, and the chain stops at
    the first comparison that is false. *)
Definition line_is (board : list string) (w : Z * Z * Z) (mark : string)
  : res bool :=
  let '(a, b, c) := w in
  do x <- getitem board a ;
  do y <- getitem board b ;
  if negb (String.eqb x y) then Ok false else
  do z <- getitem board c ;
  if negb (String.eqb y z) then Ok false else
  Ok (String.eqb z mark).

(** The loop of [Game.check_win] over the remaining win conditions. *)
Fixpoint check_win_from (board : list string) (ws : list (Z * Z * Z))
  : res string :=
  match ws with
  | [] => Ok "None"
  | w :: rest =>
      do isx <- line_is board w "X" ;
      if isx then Ok "X" else
      do iso <- line_is board w "O" ;
      if iso then Ok "O" else
      check_win_from board rest
  end.

Definition check_win (board : list string) : res string :=
  check_win_from board win_conditions.

(** The loop of [Game.board_is_full]. *)
Fixpoint board_is_full_from (board : list string) (idxs : list Z) : res bool :=
  match idxs with
  | [] => Ok true
  | index :: rest =>
      do c <- getitem board index ;
      if String.eqb c EMPTY then Ok false else board_is_full_from board rest
  end.

Definition board_is_full (board : list string) : res bool :=
  board_is_full_from board range9.

(** ** Player: the human move source *)

(** [Player.get_move]: [input] is what [int(input(...))] produced, [None]
    when it raised [ValueError]; the answer is [-1] for a rejected move. *)
Definition Player_get_move (board : list string) (input : option Z) : res Z :=
  match input with
  | None => Ok (-1)
  | Some spot =>
      if (spot <? 0) || (spot >? 8) then Ok (-1) else
      do c <- getitem board spot ;
      if negb (String.eqb c EMPTY) then Ok (-1) else Ok spot
  end.

(** [Player.move] asks again until [get_move] answers something other than
    [-1]: it returns [spot] when some input makes [get_move] answer it. *)
Definition Player_move (board : list string) (spot : Z) : Prop :=
  exists input, Player_get_move board input = Ok spot /\ spot <> -1.

(** ** AI: the minimax move source *)

Module AI.

(** [self.id] and [self.opponent] as [AI.__init__] sets them. *)
Record t : Type := { id : string; opponent : string }.

Definition init (id : string) : t :=
  {| id := id; opponent := if String.eqb id "O" then "X" else "O" |}.

End AI.

(** [self.board] is a reference to the list object of the game the AI was
    created for.  A call that is handed a list [board] either receives that
    very object ([SameList], what [AI.get_move] does) or another list object
    ([OtherList cells], [cells] being the contents of [self.board], which
    the call never writes). *)
Inductive board_ref : Type :=
| SameList
| OtherList (cells : list string).

Definition self_board (own : board_ref) (board : list string) : list string :=
  match own with
  | SameList => board
  | OtherList cells => cells
  end.

(** [AI.minimax].  The list [board] is mutated in place by the program; the
    function returns its contents at the return together with the score.
    [fuel] bounds the depth of nested calls. *)
Fixpoint minimax (fuel : nat) (self : AI.t) (own : board_ref)
    (board : list string) (depth : Z) (ai_turn : bool) {struct fuel}
  : res (Z * list string) :=
  match fuel with
  | O => Diverge
  | S fuel =>
      do w <- check_win board ;
      if String.eqb w (AI.opponent self) then Ok (-1, board) else
      do w' <- check_win board ;
      if negb (String.eqb w' "None") then Ok (1, board) else
      do full <- board_is_full board ;
      if full then Ok (0, board) else
      if ai_turn then
        for_each range9
          (fun index st =>
             let '(best_score, board) := st in
             do c <- getitem (self_board own board) index ;
             if negb (String.eqb c EMPTY) then Ok (best_score, board) else
             do board <- setitem board index (AI.id self) ;
             do r <- minimax fuel self own board (depth + 1) false ;
             let '(score, board) := r in
             do board <- setitem board index EMPTY ;
             Ok (Z.max best_score score, board))
          (-2, board)
      else
        for_each range9
          (fun index st =>
             let '(best_score, board) := st in
             do c <- getitem board index ;
             if negb (String.eqb c EMPTY) then Ok (best_score, board) else
             do board <- setitem board index
                           (if String.eqb (AI.id self) "O" then "X" else "O") ;
             do r <- minimax fuel self own board (depth + 1) true ;
             let '(score, board) := r in
             do board <- setitem board index EMPTY ;
             Ok (Z.min best_score score, board))
          (2, board)
  end.

(** [AI.get_move_helper]: the loop state is [(best_move, best_value, board)],
    [best_move = None] being Python's [None]. *)
Definition get_move_helper (fuel : nat) (self : AI.t) (own : board_ref)
    (board : list string) : res (option Z * list string) :=
  do st <- for_each range9
    (fun index st =>
       let '(best_move, best_value, board) := st in
       do c <- getitem board index ;
       if negb (String.eqb c EMPTY) then Ok (best_move, best_value, board) else
       do board <- setitem board index (AI.id self) ;
       do r <- minimax fuel self own board 0 false ;
       let '(move_value, board) := r in
       do board <- setitem board index EMPTY ;
       if move_value >? best_value
       then Ok (Some index, move_value, board)
       else Ok (best_move, best_value, board))
    (None, -1, board) ;
  let '(best_move, _, board) := st in
  Ok (best_move, board).

(** [AI.get_move] passes [self.board] itself. *)
Definition get_move (fuel : nat) (self : AI.t) (board : list string)
  : res (option Z * list string) :=
  get_move_helper fuel self SameList board.

(** [Player.move] as the AI inherits it: the loop around [get_move] leaves
    with any answer that is not [-1], [None] included, and never leaves
    when the answer is [-1]. *)
Definition AI_move (fuel : nat) (self : AI.t) (board : list string)
  : res (option Z * list string) :=
  do r <- get_move fuel self board ;
  match fst r with
  | Some (-1) => Diverge
  | _ => Ok r
  end.

(** ** Game: the turn controller *)

Inductive opponent_kind : Type :=
| Human              (* [Player(self, 'O')] *)
| Computer.          (* [AI(self, 'O')] *)

Module Game.

Record t : Type := {
  board : list string;
  moves_count : Z;
  playerO : opponent_kind;
  turn : string
}.

(** [Game.__init__] followed by the choice made in [Game.welcome]. *)
Definition init (o : opponent_kind) : t :=
  {| board := ["_"; "_"; "_"; "_"; "_"; "_"; "_"; "_"; "_"];
     moves_count := 0;
     playerO := o;
     turn := "X" |}.

End Game.

(** [Game.update_board]; [location = None] is Python's [None], which a list
    refuses as an index. *)
Definition update_board (self : Game.t) (turn : string) (location : option Z)
  : res Game.t :=
  match location with
  | None => Raise TypeError
  | Some i =>
      do board <- setitem (Game.board self) i (Game.turn self) ;
      Ok {| Game.board := board;
            Game.moves_count := Game.moves_count self;
            Game.playerO := Game.playerO self;
            Game.turn := if String.eqb (Game.turn self) "X" then "O" else "X" |}
  end.

(** [Game.get_move_and_update_board], once the move source has answered
    [location]. *)
Definition get_move_and_update_board (self : Game.t) (location : option Z)
  : res Game.t :=
  do g <- update_board self (Game.turn self) location ;
  Ok {| Game.board := Game.board g;
        Game.moves_count := Game.moves_count g + 1;
        Game.playerO := Game.playerO g;
        Game.turn := Game.turn g |}.

(** The move source of the turn: [self.playerX.move() if self.turn == 'X'
    else self.playerO.move()].  It answers a location and leaves the board
    list with contents [board'] (the search writes to it on the way). *)
Inductive chooses (g : Game.t) : option Z -> list string -> Prop :=
| chooses_playerX spot :
    Game.turn g = "X" ->
    Player_move (Game.board g) spot ->
    chooses g (Some spot) (Game.board g)
| chooses_human spot :
    Game.turn g <> "X" -> Game.playerO g = Human ->
    Player_move (Game.board g) spot ->
    chooses g (Some spot) (Game.board g)
| chooses_computer fuel location board' :
    Game.turn g <> "X" -> Game.playerO g = Computer ->
    AI_move fuel (AI.init "O") (Game.board g) = Ok (location, board') ->
    chooses g location board'.

Definition with_board (g : Game.t) (board : list string) : Game.t :=
  {| Game.board := board;
     Game.moves_count := Game.moves_count g;
     Game.playerO := Game.playerO g;
     Game.turn := Game.turn g |}.

(** One iteration of the loop of [Game.play] that does not raise. *)
Definition turn_step (g g' : Game.t) : Prop :=
  exists location board',
    chooses g location board' /\
    get_move_and_update_board (with_board g board') location = Ok g'.

(** The loop of [Game.play] goes on after a turn when [who_won] is ['None']
    and [moves_count] is not 9. *)
Definition continues (g : Game.t) : Prop :=
  check_win (Game.board g) = Ok "None" /\ Game.moves_count g <> 9.

(** [reaches g g']: the play loop started in [g] comes through [g']. *)
Inductive reaches : Game.t -> Game.t -> Prop :=
| reaches_here g : reaches g g
| reaches_turn g g1 g2 :
    continues g -> turn_step g g1 -> reaches g1 g2 -> reaches g g2.

(** ** Notions used in the statements *)

(** The body shared by the two loops of [minimax]: [look] is the list the
    emptiness test reads, [mark] what is placed, [pick] is [max] or [min],
    [rec] the recursive call. *)
Definition probe (pick : Z -> Z -> Z) (look : list string -> list string)
    (mark : string) (rec : list string -> res (Z * list string))
    (index : Z) (st : Z * list string) : res (Z * list string) :=
  let '(best_score, board) := st in
  do c <- getitem (look board) index ;
  if negb (String.eqb c EMPTY) then Ok (best_score, board) else
  do board <- setitem board index mark ;
  do r <- rec board ;
  let '(score, board) := r in
  do board <- setitem board index EMPTY ;
  Ok (pick best_score score, board).

(** The body of the loop of [get_move_helper]. *)
Definition try_move (mark : string) (rec : list string -> res (Z * list string))
    (index : Z) (st : option Z * Z * list string)
  : res (option Z * Z * list string) :=
  let '(best_move, best_value, board) := st in
  do c <- getitem board index ;
  if negb (String.eqb c EMPTY) then Ok (best_move, best_value, board) else
  do board <- setitem board index mark ;
  do r <- rec board ;
  let '(move_value, board) := r in
  do board <- setitem board index EMPTY ;
  if move_value >? best_value
  then Ok (Some index, move_value, board)
  else Ok (best_move, best_value, board).

(** The mark the minimizer places. *)
Definition other_mark (self : AI.t) : string :=
  if String.eqb (AI.id self) "O" then "X" else "O".

Definition empty_at (board : list string) (k : nat) : bool :=
  match board !! k with
  | Some c => String.eqb c EMPTY
  | None => false
  end.

Definition count_mark (mark : string) (board : list string) : nat :=
  length (List.filter (String.eqb mark) board).

Definition count_empty (board : list string) : nat := count_mark EMPTY board.

(** The three cell values. *)
Definition is_cell (c : string) : Prop := c = "X" \/ c = "O" \/ c = EMPTY.

(** [line_full board w mark]: the three cells of the win condition hold
    [mark]. *)
Definition line_full (board : list string) (w : Z * Z * Z) (mark : string)
  : Prop :=
  getitem board (fst (fst w)) = Ok mark /\
  getitem board (snd (fst w)) = Ok mark /\
  getitem board (snd w) = Ok mark.

Definition line_won (board : list string) (w : Z * Z * Z) : Prop :=
  line_full board w "X" \/ line_full board w "O".

(** [mark] holds the first win condition, in the order of [ws], that either
    mark holds. *)
Fixpoint first_full (board : list string) (ws : list (Z * Z * Z))
    (mark : string) : Prop :=
  match ws with
  | [] => False
  | w :: rest =>
      line_full board w mark \/
      (~ line_won board w /\ first_full board rest mark)
  end.

Inductive GameOutcome : Type :=
| InProgress
| Win (mark : string)
| Draw.

(** The outcome as the program reads it off a board: [check_win] first and,
    when that is ['None'], [board_is_full] ([minimax], lines 60-65). *)
Definition outcome (board : list string) : res GameOutcome :=
  do w <- check_win board ;
  if negb (String.eqb w "None") then Ok (Win w) else
  do full <- board_is_full board ;
  Ok (if full then Draw else InProgress).

(** Score of a fold of [max] or [min] over the empty cells. *)
Definition fold_scores (pick : Z -> Z -> Z) (board : list string)
    (val : nat -> Z) (ks : list nat) (acc : Z) : Z :=
  fold_left (fun a k => if empty_at board k then pick a (val k) else a) ks acc.

(** The choice [get_move_helper] keeps while it scans the cells [ks]. *)
Definition fold_choice (board : list string) (val : nat -> Z) (ks : list nat)
    (acc : option Z * Z) : option Z * Z :=
  fold_left
    (fun a k =>
       if empty_at board k
       then if val k >? snd a then (Some (Z.of_nat k), val k) else a
       else a)
    ks acc.

(** The score of a search that returned. *)
Definition score_of (r : res (Z * list string)) : Z :=
  match r with
  | Ok (v, _) => v
  | _ => 0
  end.

(** Indices of the nine cells, and win conditions made of such. *)
Definition in_board (i : Z) : Prop := 0 <= i < 9.

Definition line_in_board (w : Z * Z * Z) : Prop :=
  in_board (fst (fst w)) /\ in_board (snd (fst w)) /\ in_board (snd w).

(** The computer of the program: [AI(self, 'O')]. *)
Definition computer : AI.t := AI.init "O".

(** The score [minimax] gives a board of nine cells (ten nested calls are
    enough for it to return, see [minimax_value]). *)
Definition value (board : list string) (ai_turn : bool) : Z :=
  score_of (minimax 10 computer SameList board 0 ai_turn).

(** ** Boards of the scenarios *)

Definition empty_board : list string :=
  ["_"; "_"; "_"; "_"; "_"; "_"; "_"; "_"; "_"].

(** X threatens at 2, O can win at 5. *)
Definition board_threat : list string :=
  ["X"; "X"; "_"; "O"; "O"; "_"; "_"; "_"; "_"].

(** O to move after X4 O1 X0 O8 X6: X threatens both 2 and 3. *)
Definition board_fork : list string :=
  ["X"; "O"; "_"; "_"; "X"; "_"; "X"; "_"; "O"].

Definition board_draw : list string :=
  ["X"; "O"; "X"; "X"; "O"; "O"; "O"; "X"; "X"].

(** Both marks hold a row. *)
Definition board_two_rows : list string :=
  ["X"; "X"; "X"; "O"; "O"; "O"; "_"; "_"; "_"].

(** Three cells left, O to move. *)
Definition board_late : list string :=
  ["X"; "O"; "X"; "X"; "O"; "O"; "_"; "_"; "_"].

Definition board_late_O8 : list string :=
  ["X"; "O"; "X"; "X"; "O"; "O"; "_"; "_"; "O"].

(** A board whose only empty cell is 0. *)
Definition board_other : list string :=
  ["_"; "O"; "X"; "X"; "O"; "O"; "O"; "X"; "X"].

(** A game in which cell 0 is taken and it is O's turn. *)
Definition game_after_X0 : Game.t :=
  {| Game.board := ["X"; "_"; "_"; "_"; "_"; "_"; "_"; "_"; "_"];
     Game.moves_count := 1;
     Game.playerO := Human;
     Game.turn := "O" |}.

(** The turn after [turn]: ['O' if self.turn == 'X' else 'X']. *)
Definition next_turn (turn : string) : string :=
  if String.eqb turn "X" then "O" else "X".

(** [bump m c] is 1 when cell value [c] is the mark [m]. *)
Definition bump (m c : string) : nat :=
  if String.eqb m c then 1%nat else 0%nat.

(** Every probe a loop over the cells [ks] makes returns and gives the board
    back: [rec] is the recursive call, made after [mark] is placed. *)
Definition probes_return (mark : string)
    (rec : list string -> res (Z * list string)) (board : list string)
    (ks : list nat) : Prop :=
  forall k, In k ks -> (k < length board)%nat /\
    (empty_at board k = true ->
     exists v, rec (<[k := mark]> board) = Ok (v, <[k := mark]> board)).

(** ** Invariants of the play loop *)

(** The game after its current player has marked cell [k]. *)
Definition moved (g : Game.t) (k : nat) : Game.t :=
  {| Game.board := <[k := Game.turn g]> (Game.board g);
     Game.moves_count := Game.moves_count g + 1;
     Game.playerO := Game.playerO g;
     Game.turn := next_turn (Game.turn g) |}.

(** Nine cells, each with one of the three values; X and O alternate, X
    first; [moves_count] counts the marks. *)
Definition well_formed (g : Game.t) : Prop :=
  length (Game.board g) = 9%nat /\
  Forall is_cell (Game.board g) /\
  ((Game.turn g = "X" /\
    count_mark "X" (Game.board g) = count_mark "O" (Game.board g)) \/
   (Game.turn g = "O" /\
    count_mark "X" (Game.board g) = S (count_mark "O" (Game.board g)))) /\
  Game.moves_count g =
    Z.of_nat (count_mark "X" (Game.board g) + count_mark "O" (Game.board g)).

(** What the computer keeps true of the game: the score [minimax] gives the
    board, from the side that is to move, is not the score of a loss. *)
Definition holds_out (g : Game.t) : Prop :=
  length (Game.board g) = 9%nat /\
  ((Game.turn g = "X" /\ 0 <= value (Game.board g) false) \/
   (Game.turn g = "O" /\ 0 <= value (Game.board g) true)).

(** ** A check that O can hold out *)

(** [f] holds of the first empty cell among [ks] it is tried on, or of a
    later one. *)
Fixpoint some_cell (f : nat -> bool) (board : list string) (ks : list nat)
  : bool :=
  match ks with
  | [] => false
  | k :: ks =>
      if empty_at board k
      then if f k then true else some_cell f board ks
      else some_cell f board ks
  end.

(** [f] holds of every empty cell among [ks]. *)
Fixpoint every_cell (f : nat -> bool) (board : list string) (ks : list nat)
  : bool :=
  match ks with
  | [] => true
  | k :: ks =>
      if empty_at board k
      then if f k then every_cell f board ks else false
      else every_cell f board ks
  end.

(** [not_losing n order board ai_turn]: within [n] moves, X holds no line
    on [board] and, when the game is not over, O has a cell (looked for in
    the order [order]) after which this is so again, whatever X plays. *)
Fixpoint not_losing (n : nat) (order : list nat) (board : list string)
    (ai_turn : bool) : bool :=
  match n with
  | O => false
  | S n =>
      match check_win board with
      | Ok w =>
          if String.eqb w "X" then false
          else if String.eqb w "O" then true
          else match board_is_full board with
               | Ok true => true
               | Ok false =>
                   if ai_turn
                   then some_cell
                          (fun k =>
                             not_losing n order (<[k := "O"]> board) false)
                          board order
                   else every_cell
                          (fun k =>
                             not_losing n order (<[k := "X"]> board) true)
                          board (seq 0 9)
               | _ => false
               end
      | _ => false
      end
  end.

(** Centre first, then corners and edges. *)
Definition cell_order : list nat := [4; 0; 2; 6; 8; 1; 3; 5; 7]%nat.

(** ** Calls that do not raise *)


(** * Python lists *)

Section PyListFacts.
Context {A : Type}.
Implicit Types (l : list A) (k : nat) (i : Z) (x : A).

Lemma position_nat (n k : nat) :
  (k < n)%nat -> position n (Z.of_nat k) = Some k.
Proof.
  intros Hk. unfold position.
  replace (0 <=? Z.of_nat k) with true by (symmetry; apply Z.leb_le; lia).
  replace (Z.of_nat k <? Z.of_nat n) with true by (symmetry; apply Z.ltb_lt; lia).
  simpl. now rewrite Nat2Z.id.
Qed.

Lemma position_lt (n : nat) i k : position n i = Some k -> (k < n)%nat.
Proof.
  unfold position.
  destruct (0 <=? i) eqn:H0, (i <? Z.of_nat n) eqn:H1; simpl;
    try (destruct (- Z.of_nat n <=? i) eqn:H2, (i <? 0) eqn:H3; simpl);
    intros [= <-]; lia.
Qed.

Lemma getitem_nat l k :
  (k < length l)%nat ->
  getitem l (Z.of_nat k) =
    match l !! k with Some x => Ok x | None => Raise IndexError end.
Proof. intros Hk. unfold getitem. now rewrite position_nat. Qed.

Lemma setitem_nat l k x :
  (k < length l)%nat -> setitem l (Z.of_nat k) x = Ok (<[k := x]> l).
Proof. intros Hk. unfold setitem. now rewrite position_nat. Qed.

Lemma setitem_length l i x l' :
  setitem l i x = Ok l' -> length l' = length l.
Proof.
  unfold setitem. destruct (position (length l) i); intros [= <-].
  apply length_insert.
Qed.

(** Writing back what was read undoes a write at the same index. *)
Lemma setitem_undo l i x c l1 l2 :
  getitem l i = Ok c -> setitem l i x = Ok l1 -> setitem l1 i c = Ok l2 ->
  l2 = l.
Proof.
  unfold getitem, setitem.
  destruct (position (length l) i) as [k|] eqn:Hp; [|discriminate].
  destruct (l !! k) as [c'|] eqn:Hk; [|discriminate].
  intros [= ->] [= <-]. rewrite length_insert, Hp. intros [= <-].
  rewrite list_insert_insert_eq. now apply list_insert_id.
Qed.

Lemma getitem_ok_setitem l i c x :
  getitem l i = Ok c -> exists l', setitem l i x = Ok l'.
Proof.
  unfold getitem, setitem.
  destruct (position (length l) i); [eauto | discriminate].
Qed.
End PyListFacts.

Lemma range9_seq : range9 = List.map Z.of_nat (seq 0 9).
Proof. reflexivity. Qed.

(** * Loops *)

Section ForEach.
Context {S : Type}.
Implicit Types (body : Z -> S -> res S) (s : S).

Lemma for_each_weaken body1 body2 idxs s r :
  (forall i s r, body1 i s = Ok r -> body2 i s = Ok r) ->
  for_each idxs body1 s = Ok r -> for_each idxs body2 s = Ok r.
Proof.
  intros Hb. revert s. induction idxs as [|i idxs IH]; intros s; simpl; [easy|].
  destruct (body1 i s) as [s'| |] eqn:H1; simpl; try discriminate.
  rewrite (Hb _ _ _ H1). simpl. apply IH.
Qed.

Lemma for_each_ext body1 body2 idxs s :
  (forall i s, body1 i s = body2 i s) ->
  for_each idxs body1 s = for_each idxs body2 s.
Proof.
  intros Hb. revert s. induction idxs as [|i idxs IH]; intros s; simpl; [easy|].
  rewrite Hb. destruct (body2 i s); simpl; auto.
Qed.

(** An invariant of the loop state holds of the state the loop ends in. *)
Lemma for_each_invariant (I : S -> Prop) body idxs s r :
  (forall i s s', I s -> body i s = Ok s' -> I s') ->
  I s -> for_each idxs body s = Ok r -> I r.
Proof.
  intros Hb. revert s. induction idxs as [|i idxs IH]; intros s Hs; simpl.
  - now intros [= <-].
  - destruct (body i s) as [s'| |] eqn:H1; simpl; try discriminate.
    apply IH. eapply Hb; eauto.
Qed.
End ForEach.

(** * The search, one call at a time *)

Lemma minimax_unfold fuel self own board depth ai_turn :
  minimax (S fuel) self own board depth ai_turn =
  (do w <- check_win board ;
   if String.eqb w (AI.opponent self) then Ok (-1, board) else
   do w' <- check_win board ;
   if negb (String.eqb w' "None") then Ok (1, board) else
   do full <- board_is_full board ;
   if full then Ok (0, board) else
   if ai_turn then
     for_each range9
       (probe Z.max (self_board own) (AI.id self)
          (fun b => minimax fuel self own b (depth + 1) false))
       (-2, board)
   else
     for_each range9
       (probe Z.min (fun b => b) (other_mark self)
          (fun b => minimax fuel self own b (depth + 1) true))
       (2, board)).
Proof. reflexivity. Qed.

Lemma get_move_helper_unfold fuel self own board :
  get_move_helper fuel self own board =
  (do st <- for_each range9
              (try_move (AI.id self) (fun b => minimax fuel self own b 0 false))
              (None, -1, board) ;
   Ok (fst (fst st), snd st)).
Proof.
  unfold get_move_helper.
  match goal with |- bind ?m _ = bind ?m' _ => change m' with m; destruct m as [[[bm bv] b]| |] end;
    reflexivity.
Qed.

#[local] Opaque minimax.
#[local] Arguments for_each : simpl never.
#[local] Arguments probe : simpl never.
#[local] Arguments try_move : simpl never.
#[local] Arguments check_win : simpl never.
#[local] Arguments board_is_full : simpl never.

Ltac bind_ok H :=
  match type of H with
  | bind ?m _ = Ok _ =>
      let E := fresh "E" in
      destruct m eqn:E; simpl in H; [|discriminate H..]
  end.

Section Probe.
Variables (pick : Z -> Z -> Z) (look : list string -> list string)
          (mark : string).

Lemma probe_weaken rec1 rec2 i st r :
  (forall b r, rec1 b = Ok r -> rec2 b = Ok r) ->
  probe pick look mark rec1 i st = Ok r ->
  probe pick look mark rec2 i st = Ok r.
Proof.
  intros Hrec. destruct st as [acc b]. unfold probe.
  destruct (getitem (look b) i) as [c| |]; simpl; try discriminate.
  destruct (negb (String.eqb c EMPTY)); [easy|].
  destruct (setitem b i mark) as [b1| |]; simpl; try discriminate.
  destruct (rec1 b1) as [[v b2]| |] eqn:E; simpl; try discriminate.
  now rewrite (Hrec _ _ E).
Qed.

Lemma probe_ext rec1 rec2 i st :
  (forall b, rec1 b = rec2 b) ->
  probe pick look mark rec1 i st = probe pick look mark rec2 i st.
Proof.
  intros Hrec. destruct st as [acc b]. unfold probe.
  destruct (getitem (look b) i) as [c| |]; simpl; try reflexivity.
  destruct (negb (String.eqb c EMPTY)); [easy|].
  destruct (setitem b i mark) as [b1| |]; simpl; try reflexivity.
  now rewrite Hrec.
Qed.
End Probe.

Lemma try_move_weaken mark rec1 rec2 i st r :
  (forall b r, rec1 b = Ok r -> rec2 b = Ok r) ->
  try_move mark rec1 i st = Ok r -> try_move mark rec2 i st = Ok r.
Proof.
  intros Hrec. destruct st as [[bm bv] b]. unfold try_move.
  destruct (getitem b i) as [c| |]; simpl; try discriminate.
  destruct (negb (String.eqb c EMPTY)); [easy|].
  destruct (setitem b i mark) as [b1| |]; simpl; try discriminate.
  destruct (rec1 b1) as [[v b2]| |] eqn:E; simpl; try discriminate.
  now rewrite (Hrec _ _ E).
Qed.

(** More fuel never changes a result. *)
Lemma minimax_fuel_S fuel : forall self own board depth ai_turn r,
  minimax fuel self own board depth ai_turn = Ok r ->
  minimax (S fuel) self own board depth ai_turn = Ok r.
Proof.
  induction fuel as [|fuel IH]; intros self own board depth ai_turn r H.
  - discriminate H.
  - rewrite minimax_unfold in H. rewrite minimax_unfold.
    destruct (check_win board) as [w| |]; simpl in *; try discriminate.
    destruct (String.eqb w (AI.opponent self)); [easy|].
    destruct (negb (String.eqb w "None")); [easy|].
    destruct (board_is_full board) as [[|]| |]; simpl in *; try easy.
    destruct ai_turn;
      (eapply for_each_weaken; [|exact H]);
      intros i s r'; apply probe_weaken; intros b r''; apply IH.
Qed.

Lemma minimax_fuel_le fuel fuel' self own board depth ai_turn r :
  (fuel <= fuel')%nat ->
  minimax fuel self own board depth ai_turn = Ok r ->
  minimax fuel' self own board depth ai_turn = Ok r.
Proof.
  induction 1 as [|fuel' _ IH]; [easy|].
  intros H. apply minimax_fuel_S. now apply IH.
Qed.

(** Two runs that both return agree, whatever their fuel. *)
Lemma minimax_deterministic fuel fuel' self own board depth ai_turn r r' :
  minimax fuel self own board depth ai_turn = Ok r ->
  minimax fuel' self own board depth ai_turn = Ok r' ->
  r = r'.
Proof.
  intros H H'.
  apply (minimax_fuel_le _ (Nat.max fuel fuel')) in H; [|lia].
  apply (minimax_fuel_le _ (Nat.max fuel fuel')) in H'; [|lia].
  congruence.
Qed.

(** [depth] is carried along and never read. *)
Lemma minimax_depth fuel : forall self own board depth depth' ai_turn,
  minimax fuel self own board depth ai_turn =
  minimax fuel self own board depth' ai_turn.
Proof.
  induction fuel as [|fuel IH]; intros self own board depth depth' ai_turn.
  - reflexivity.
  - rewrite !minimax_unfold.
    destruct (check_win board) as [w| |]; simpl; try reflexivity.
    destruct (String.eqb w (AI.opponent self)); [easy|].
    destruct (negb (String.eqb w "None")); [easy|].
    destruct (board_is_full board) as [[|]| |]; simpl; try easy.
    destruct ai_turn; apply for_each_ext; intros i s; apply probe_ext;
      intros b; apply IH.
Qed.

Lemma get_move_helper_fuel_le fuel fuel' self own board r :
  (fuel <= fuel')%nat ->
  get_move_helper fuel self own board = Ok r ->
  get_move_helper fuel' self own board = Ok r.
Proof.
  intros Hle. rewrite !get_move_helper_unfold. intros H.
  bind_ok H.
  erewrite for_each_weaken; [exact H| |exact E].
  intros i s r'. apply try_move_weaken. intros b r''.
  now apply minimax_fuel_le.
Qed.

Lemma get_move_helper_deterministic fuel fuel' self own board r r' :
  get_move_helper fuel self own board = Ok r ->
  get_move_helper fuel' self own board = Ok r' ->
  r = r'.
Proof.
  intros H H'.
  apply (get_move_helper_fuel_le _ (Nat.max fuel fuel')) in H; [|lia].
  apply (get_move_helper_fuel_le _ (Nat.max fuel fuel')) in H'; [|lia].
  congruence.
Qed.

(** * Place, search, undo *)

Lemma probe_same_restores pick mark rec i acc b r :
  (forall b1 v b2, rec b1 = Ok (v, b2) -> b2 = b1) ->
  probe pick (fun b => b) mark rec i (acc, b) = Ok r -> snd r = b.
Proof.
  intros Hrec. unfold probe.
  destruct (getitem b i) as [c| |] eqn:Hc; simpl; try discriminate.
  destruct (negb (String.eqb c EMPTY)) eqn:Hn; [now intros [= <-]|].
  apply negb_false_iff, String.eqb_eq in Hn. subst c.
  destruct (setitem b i mark) as [b1| |] eqn:H1; simpl; try discriminate.
  destruct (rec b1) as [[v b2]| |] eqn:E; simpl; try discriminate.
  apply Hrec in E. subst b2.
  destruct (setitem b1 i EMPTY) as [b3| |] eqn:H3; simpl; try discriminate.
  intros [= <-]. simpl. eapply setitem_undo; eauto.
Qed.

Lemma try_move_restores mark rec i bm bv b r :
  (forall b1 v b2, rec b1 = Ok (v, b2) -> b2 = b1) ->
  try_move mark rec i (bm, bv, b) = Ok r -> snd r = b.
Proof.
  intros Hrec. unfold try_move.
  destruct (getitem b i) as [c| |] eqn:Hc; simpl; try discriminate.
  destruct (negb (String.eqb c EMPTY)) eqn:Hn; [now intros [= <-]|].
  apply negb_false_iff, String.eqb_eq in Hn. subst c.
  destruct (setitem b i mark) as [b1| |] eqn:H1; simpl; try discriminate.
  destruct (rec b1) as [[v b2]| |] eqn:E; simpl; try discriminate.
  apply Hrec in E. subst b2.
  destruct (setitem b1 i EMPTY) as [b3| |] eqn:H3; simpl; try discriminate.
  assert (b3 = b) by (eapply setitem_undo; eauto). subst b3.
  destruct (v >? bv); now intros [= <-].
Qed.

Lemma minimax_restores fuel : forall self board depth ai_turn v board',
  minimax fuel self SameList board depth ai_turn = Ok (v, board') ->
  board' = board.
Proof.
  induction fuel as [|fuel IH]; intros self board depth ai_turn v board' H.
  - discriminate H.
  - rewrite minimax_unfold in H.
    destruct (check_win board) as [w| |]; simpl in *; try discriminate.
    destruct (String.eqb w (AI.opponent self)); [congruence|].
    destruct (negb (String.eqb w "None")); [congruence|].
    destruct (board_is_full board) as [[|]| |]; simpl in *; try congruence.
    change (self_board SameList) with (fun b : list string => b) in H.
    destruct ai_turn;
      (apply (for_each_invariant (fun st => snd st = board)) in H;
       [exact H| |reflexivity]);
      intros i [acc b] s' Hb Hs'; simpl in Hb; subst b;
      (eapply probe_same_restores; [|exact Hs']);
      intros b1 v0 b2; apply IH.
Qed.

Lemma get_move_helper_restores fuel self board move board' :
  get_move_helper fuel self SameList board = Ok (move, board') ->
  board' = board.
Proof.
  rewrite get_move_helper_unfold. intros H. bind_ok H.
  injection H as _ <-.
  apply (for_each_invariant (fun st => snd st = board)) in E; [exact E| |reflexivity].
  intros i [[bm bv] b] s' Hb Hs'. simpl in Hb. subst b.
  eapply try_move_restores; [|exact Hs'].
  intros b1 v b2. apply minimax_restores.
Qed.

(** * The rules on a board of nine cells *)

Lemma getitem_total (board : list string) i :
  length board = 9%nat -> in_board i -> exists c, getitem board i = Ok c.
Proof.
  intros Hlen Hi. rewrite <- (Z2Nat.id i) by (unfold in_board in Hi; lia).
  assert (Hk : (Z.to_nat i < length board)%nat)
    by (unfold in_board in Hi; lia).
  rewrite getitem_nat by exact Hk.
  destruct (lookup_lt_is_Some_2 _ _ Hk) as [c ->]. eauto.
Qed.

Lemma empty_at_getitem (board : list string) k :
  (k < length board)%nat ->
  empty_at board k = true <-> getitem board (Z.of_nat k) = Ok EMPTY.
Proof.
  intros Hk. rewrite getitem_nat by exact Hk. unfold empty_at.
  destruct (board !! k) as [c|]; [|split; discriminate].
  rewrite String.eqb_eq. split; congruence.
Qed.

Lemma line_is_spec board w mark :
  length board = 9%nat ->
  in_board (fst (fst w)) -> in_board (snd (fst w)) -> in_board (snd w) ->
  exists r, line_is board w mark = Ok r /\ (r = true <-> line_full board w mark).
Proof.
  intros Hlen Ha Hb Hc. destruct w as [[a b] c]. simpl in *.
  destruct (getitem_total board a Hlen Ha) as [x Hx].
  destruct (getitem_total board b Hlen Hb) as [y Hy].
  destruct (getitem_total board c Hlen Hc) as [z Hz].
  unfold line_is, line_full. simpl. rewrite Hx, Hy. simpl.
  destruct (String.eqb_spec x y) as [->|Hxy]; simpl.
  - rewrite Hz. simpl. destruct (String.eqb_spec y z) as [->|Hyz]; simpl.
    + exists (String.eqb z mark). split; [easy|].
      rewrite String.eqb_eq. split; [now intros ->|]. intros (H & _); congruence.
    + exists false. split; [easy|]. split; [easy|].
      intros (_ & H1 & H2). congruence.
  - exists false. split; [easy|]. split; [easy|].
    intros (H1 & H2 & _). congruence.
Qed.

Lemma win_conditions_in_board : Forall line_in_board win_conditions.
Proof. repeat constructor; unfold in_board; simpl; lia. Qed.

Lemma line_full_one_mark board w m m' :
  line_full board w m -> line_full board w m' -> m = m'.
Proof. intros (H & _) (H' & _). congruence. Qed.

Lemma check_win_from_spec board ws :
  length board = 9%nat -> Forall line_in_board ws ->
  exists w, check_win_from board ws = Ok w /\
    ((w = "X" /\ first_full board ws "X") \/
     (w = "O" /\ first_full board ws "O") \/
     (w = "None" /\ forall w', In w' ws -> ~ line_won board w')).
Proof.
  intros Hlen. induction 1 as [|w ws (Ha & Hb & Hc) _ IH].
  - exists "None". simpl. split; [easy|]. right; right. split; [easy|].
    intros w' [].
  - simpl.
    destruct (line_is_spec board w "X" Hlen Ha Hb Hc) as (rx & -> & Hrx).
    destruct (line_is_spec board w "O" Hlen Ha Hb Hc) as (ro & Ero & Hro).
    simpl. destruct rx.
    + exists "X". split; [easy|]. left. split; [easy|]. left. now apply Hrx.
    + rewrite Ero. simpl. destruct ro.
      * exists "O". split; [easy|]. right; left. split; [easy|].
        left. now apply Hro.
      * assert (Hw : ~ line_won board w).
        { intros [H|H]; [apply Hrx in H|apply Hro in H]; discriminate. }
        destruct IH as (r & -> & [[-> H]|[[-> H]|[-> H]]]).
        -- exists "X". split; [easy|]. left. now split; [|right].
        -- exists "O". split; [easy|]. right; left. now split; [|right].
        -- exists "None". split; [easy|]. right; right. split; [easy|].
           intros w' [<-|Hin]; [easy|]. now apply H.
Qed.

Lemma first_full_won board ws mark :
  mark = "X" \/ mark = "O" ->
  first_full board ws mark -> exists w, In w ws /\ line_full board w mark.
Proof.
  intros Hm. induction ws as [|w ws IH]; simpl; [easy|].
  intros [H|[_ H]]; [eauto|]. destruct (IH H) as (w' & ? & ?); eauto.
Qed.

Lemma first_full_unique board ws m m' :
  (m = "X" \/ m = "O") -> (m' = "X" \/ m' = "O") ->
  first_full board ws m -> first_full board ws m' -> m = m'.
Proof.
  intros Hm Hm'. induction ws as [|w ws IH]; simpl; [easy|].
  intros [H|[Hn H]] [H'|[Hn' H']]; auto.
  - eapply line_full_one_mark; eauto.
  - exfalso. apply Hn'. destruct Hm as [->| ->]; [now left|now right].
  - exfalso. apply Hn. destruct Hm' as [->| ->]; [now left|now right].
Qed.

Lemma check_win_from_mark board ws mark :
  length board = 9%nat -> Forall line_in_board ws ->
  mark = "X" \/ mark = "O" ->
  check_win_from board ws = Ok mark <-> first_full board ws mark.
Proof.
  intros Hlen Hws Hm.
  destruct (check_win_from_spec board ws Hlen Hws)
    as (w & -> & [[-> H]|[[-> H]|[-> H]]]).
  - split; [intros [= <-]; exact H|]. intros H'. f_equal.
    eapply first_full_unique; eauto.
  - split; [intros [= <-]; exact H|]. intros H'. f_equal.
    eapply first_full_unique; eauto.
  - split; [intros [= <-]; destruct Hm; discriminate|].
    intros H'. destruct (first_full_won _ _ _ Hm H') as (w' & Hin & Hf).
    exfalso. apply (H w' Hin). destruct Hm as [->| ->]; [now left|now right].
Qed.

Lemma check_win_from_none board ws :
  length board = 9%nat -> Forall line_in_board ws ->
  check_win_from board ws = Ok "None" <->
  forall w, In w ws -> ~ line_won board w.
Proof.
  intros Hlen Hws.
  destruct (check_win_from_spec board ws Hlen Hws)
    as (w & -> & [[-> H]|[[-> H]|[-> H]]]).
  - split; [discriminate|]. intros Hn.
    destruct (first_full_won _ _ "X" (or_introl eq_refl) H) as (w' & Hin & Hf).
    exfalso. apply (Hn w' Hin). now left.
  - split; [discriminate|]. intros Hn.
    destruct (first_full_won _ _ "O" (or_intror eq_refl) H) as (w' & Hin & Hf).
    exfalso. apply (Hn w' Hin). now right.
  - easy.
Qed.

(** What [check_win] can answer on nine cells. *)
Lemma check_win_total board :
  length board = 9%nat ->
  check_win board = Ok "X" \/ check_win board = Ok "O" \/
  check_win board = Ok "None".
Proof.
  intros Hlen. unfold check_win.
  destruct (check_win_from_spec board _ Hlen win_conditions_in_board)
    as (w & -> & [[-> _]|[[-> _]|[-> _]]]); auto.
Qed.

Lemma board_is_full_from_spec board idxs :
  length board = 9%nat -> Forall in_board idxs ->
  exists r, board_is_full_from board idxs = Ok r /\
    (r = true <-> forall i, In i idxs -> getitem board i <> Ok EMPTY).
Proof.
  intros Hlen. induction 1 as [|i idxs Hi _ IH]; simpl.
  - exists true. split; [easy|]. split; [intros _ i []|easy].
  - destruct (getitem_total board i Hlen Hi) as [c Hc]. rewrite Hc. simpl.
    destruct (String.eqb_spec c EMPTY) as [->|Hne].
    + exists false. split; [easy|]. split; [easy|].
      intros H. exfalso. apply (H i); [now left|exact Hc].
    + destruct IH as (r & -> & Hr). exists r. split; [easy|].
      rewrite Hr. split.
      * intros H j [<-|Hj]; [congruence|now apply H].
      * intros H j Hj. apply H. now right.
Qed.

Lemma range9_in_board : Forall in_board range9.
Proof. repeat constructor; unfold in_board; lia. Qed.

Lemma board_is_full_spec board :
  length board = 9%nat ->
  exists r, board_is_full board = Ok r /\
    (r = true <-> forall i, In i range9 -> getitem board i <> Ok EMPTY).
Proof. intros Hlen. now apply board_is_full_from_spec, range9_in_board. Qed.

(** * Counting marks *)

Lemma count_mark_cons m c board :
  count_mark m (c :: board) = (bump m c + count_mark m board)%nat.
Proof. unfold count_mark, bump. simpl. now destruct (String.eqb m c). Qed.

(** Overwriting cell [k], which held [c], with [x]. *)
Lemma count_mark_insert m board : forall k c x,
  board !! k = Some c ->
  (count_mark m (<[k := x]> board) + bump m c =
   count_mark m board + bump m x)%nat.
Proof.
  induction board as [|c0 board IH]; intros k c x Hk; [discriminate|].
  destruct k as [|k]; simpl in *.
  - injection Hk as ->. rewrite !count_mark_cons. lia.
  - rewrite !count_mark_cons. specialize (IH k c x Hk). lia.
Qed.

Lemma count_empty_place board k mark :
  empty_at board k = true -> mark <> EMPTY ->
  count_empty board = S (count_empty (<[k := mark]> board)).
Proof.
  unfold empty_at, count_empty. intros Hk Hm.
  destruct (board !! k) as [c|] eqn:Hc; [|discriminate].
  apply String.eqb_eq in Hk. subst c.
  pose proof (count_mark_insert EMPTY board k EMPTY mark Hc) as H.
  unfold bump in H. rewrite String.eqb_refl in H.
  destruct (String.eqb_spec EMPTY mark); [congruence|]. lia.
Qed.

Lemma count_mark_le_length m board : (count_mark m board <= length board)%nat.
Proof. unfold count_mark. apply List.filter_length_le. Qed.

(** * The loops as folds over the cells *)

Lemma fold_scores_cons pick board val k ks acc :
  fold_scores pick board val (k :: ks) acc =
  fold_scores pick board val ks
    (if empty_at board k then pick acc (val k) else acc).
Proof. reflexivity. Qed.

Lemma fold_choice_cons board val k ks acc :
  fold_choice board val (k :: ks) acc =
  fold_choice board val ks
    (if empty_at board k
     then if val k >? snd acc then (Some (Z.of_nat k), val k) else acc
     else acc).
Proof. reflexivity. Qed.

Section Loops.
Variables (mark : string) (rec : list string -> res (Z * list string)).
Variable board : list string.
Let val (k : nat) : Z := score_of (rec (<[k := mark]> board)).

Lemma probes_return_cons k ks :
  probes_return mark rec board (k :: ks) ->
  probes_return mark rec board ks.
Proof. intros H j Hj. apply H. now right. Qed.

Lemma setitem_back k :
  (k < length board)%nat -> empty_at board k = true ->
  setitem (<[k := mark]> board) (Z.of_nat k) EMPTY = Ok board.
Proof.
  intros Hk He. rewrite setitem_nat by now rewrite length_insert.
  rewrite list_insert_insert_eq. f_equal. apply list_insert_id.
  unfold empty_at in He. destruct (board !! k) as [c|]; [|discriminate].
  apply String.eqb_eq in He. now subst c.
Qed.

Lemma getitem_empty_at k :
  (k < length board)%nat ->
  exists c, getitem board (Z.of_nat k) = Ok c /\
            negb (String.eqb c EMPTY) = negb (empty_at board k).
Proof.
  intros Hk. rewrite getitem_nat by exact Hk. unfold empty_at.
  destruct (lookup_lt_is_Some_2 _ _ Hk) as [c ->]. eauto.
Qed.

Lemma probe_loop pick ks : forall acc,
  probes_return mark rec board ks ->
  for_each (List.map Z.of_nat ks) (probe pick (fun b => b) mark rec)
    (acc, board) =
  Ok (fold_scores pick board val ks acc, board).
Proof.
  induction ks as [|k ks IH]; intros acc Hks; [reflexivity|].
  destruct (Hks k (or_introl eq_refl)) as [Hk Hrec].
  apply probes_return_cons in Hks.
  change (for_each (List.map Z.of_nat (k :: ks)) ?body ?s)
    with (bind (body (Z.of_nat k) s)
            (fun s' => for_each (List.map Z.of_nat ks) body s')).
  rewrite fold_scores_cons. unfold probe at 1.
  destruct (getitem_empty_at k Hk) as (c & Hc & Hn).
  rewrite Hc. simpl. rewrite Hn.
  destruct (empty_at board k) eqn:He; simpl; [|now apply IH].
  rewrite setitem_nat by exact Hk. simpl.
  destruct (Hrec eq_refl) as [v Hv].
  assert (Hval : val k = v) by (unfold val; now rewrite Hv).
  rewrite Hv, Hval. simpl.
  rewrite setitem_back by easy. simpl. now apply IH.
Qed.

Lemma try_move_loop ks : forall acc,
  probes_return mark rec board ks ->
  for_each (List.map Z.of_nat ks) (try_move mark rec) (acc, board) =
  Ok (fold_choice board val ks acc, board).
Proof.
  induction ks as [|k ks IH]; intros acc Hks; [reflexivity|].
  destruct (Hks k (or_introl eq_refl)) as [Hk Hrec].
  apply probes_return_cons in Hks.
  change (for_each (List.map Z.of_nat (k :: ks)) ?body ?s)
    with (bind (body (Z.of_nat k) s)
            (fun s' => for_each (List.map Z.of_nat ks) body s')).
  rewrite fold_choice_cons. unfold try_move at 1. destruct acc as [bm bv].
  destruct (getitem_empty_at k Hk) as (c & Hc & Hn).
  rewrite Hc. simpl. rewrite Hn.
  destruct (empty_at board k) eqn:He; simpl; [|now apply IH].
  rewrite setitem_nat by exact Hk. simpl.
  destruct (Hrec eq_refl) as [v Hv].
  assert (Hval : val k = v) by (unfold val; now rewrite Hv).
  rewrite Hv, Hval. simpl.
  rewrite setitem_back by easy. simpl.
  destruct (v >? bv); simpl; now apply IH.
Qed.
End Loops.

(** * Scores of the folds *)

Lemma fold_max_spec board val ks : forall acc,
  let r := fold_scores Z.max board val ks acc in
  acc <= r /\
  (forall k, In k ks -> empty_at board k = true -> val k <= r) /\
  (r = acc \/ exists k, In k ks /\ empty_at board k = true /\ r = val k).
Proof.
  induction ks as [|k ks IH]; intros acc r; subst r.
  - unfold fold_scores; simpl. repeat split; [lia|easy|now left].
  - rewrite fold_scores_cons.
    destruct (empty_at board k) eqn:He.
    + destruct (IH (Z.max acc (val k))) as (H1 & H2 & H3).
      repeat split.
      * lia.
      * intros j [<-|Hj] Hje; [lia|now apply H2].
      * destruct H3 as [H3|(j & Hj & Hje & H3)].
        -- destruct (Z.max_spec acc (val k)) as [[_ Hm]|[_ Hm]].
           ++ right. exists k. split; [now left|]. split; [easy|]. lia.
           ++ left. lia.
        -- right. exists j. split; [now right|]. auto.
    + destruct (IH acc) as (H1 & H2 & H3). repeat split.
      * exact H1.
      * intros j [<-|Hj] Hje; [congruence|now apply H2].
      * destruct H3 as [H3|(j & Hj & Hje & H3)]; [now left|].
        right. exists j. split; [now right|]. auto.
Qed.

Lemma fold_min_spec board val ks : forall acc,
  let r := fold_scores Z.min board val ks acc in
  r <= acc /\
  (forall k, In k ks -> empty_at board k = true -> r <= val k) /\
  (r = acc \/ exists k, In k ks /\ empty_at board k = true /\ r = val k).
Proof.
  induction ks as [|k ks IH]; intros acc r; subst r.
  - unfold fold_scores; simpl. repeat split; [lia|easy|now left].
  - rewrite fold_scores_cons.
    destruct (empty_at board k) eqn:He.
    + destruct (IH (Z.min acc (val k))) as (H1 & H2 & H3).
      repeat split.
      * lia.
      * intros j [<-|Hj] Hje; [lia|now apply H2].
      * destruct H3 as [H3|(j & Hj & Hje & H3)].
        -- destruct (Z.min_spec acc (val k)) as [[_ Hm]|[_ Hm]].
           ++ left. lia.
           ++ right. exists k. split; [now left|]. split; [easy|]. lia.
        -- right. exists j. split; [now right|]. auto.
    + destruct (IH acc) as (H1 & H2 & H3). repeat split.
      * exact H1.
      * intros j [<-|Hj] Hje; [congruence|now apply H2].
      * destruct H3 as [H3|(j & Hj & Hje & H3)]; [now left|].
        right. exists j. split; [now right|]. auto.
Qed.

(** With a free cell to try, the fold leaves its start value behind. *)
Lemma fold_max_range board val ks :
  (forall k, In k ks -> empty_at board k = true -> -1 <= val k <= 1) ->
  (exists k, In k ks /\ empty_at board k = true) ->
  -1 <= fold_scores Z.max board val ks (-2) <= 1.
Proof.
  intros Hval (k & Hk & He).
  destruct (fold_max_spec board val ks (-2)) as (H1 & H2 & H3).
  specialize (H2 k Hk He). specialize (Hval k Hk He) as Hvk.
  destruct H3 as [H3|(j & Hj & Hje & H3)]; [lia|].
  rewrite H3. now apply Hval.
Qed.

Lemma fold_min_range board val ks :
  (forall k, In k ks -> empty_at board k = true -> -1 <= val k <= 1) ->
  (exists k, In k ks /\ empty_at board k = true) ->
  -1 <= fold_scores Z.min board val ks 2 <= 1.
Proof.
  intros Hval (k & Hk & He).
  destruct (fold_min_spec board val ks 2) as (H1 & H2 & H3).
  specialize (H2 k Hk He). specialize (Hval k Hk He) as Hvk.
  destruct H3 as [H3|(j & Hj & Hje & H3)]; [lia|].
  rewrite H3. now apply Hval.
Qed.

(** * The search returns *)

Lemma board_not_full_free board idxs :
  board_is_full_from board idxs = Ok false ->
  exists i, In i idxs /\ getitem board i = Ok EMPTY.
Proof.
  induction idxs as [|i idxs IH]; simpl; [discriminate|].
  destruct (getitem board i) as [c| |] eqn:Hc; simpl; try discriminate.
  destruct (String.eqb_spec c EMPTY) as [->|_].
  - intros _. exists i. auto.
  - intros H. destruct (IH H) as (j & ? & ?). exists j. auto.
Qed.

Lemma board_not_full_cell board :
  length board = 9%nat -> board_is_full board = Ok false ->
  exists k, In k (seq 0 9) /\ empty_at board k = true.
Proof.
  intros Hlen H. apply board_not_full_free in H. destruct H as (i & Hi & Hc).
  rewrite range9_seq in Hi. apply in_map_iff in Hi.
  destruct Hi as (k & <- & Hk). exists k. split; [exact Hk|].
  apply empty_at_getitem; [|exact Hc]. apply in_seq in Hk. lia.
Qed.

Lemma other_mark_not_empty self : other_mark self <> EMPTY.
Proof. unfold other_mark. now destruct (String.eqb (AI.id self) "O"). Qed.

Lemma minimax_probes fuel self board depth ai_turn mark :
  (forall b, length b = 9%nat -> (count_empty b < fuel)%nat ->
     exists v, minimax fuel self SameList b depth ai_turn = Ok (v, b) /\
               -1 <= v <= 1) ->
  length board = 9%nat -> mark <> EMPTY ->
  (count_empty board < S fuel)%nat ->
  probes_return mark
    (fun b => minimax fuel self SameList b depth ai_turn) board (seq 0 9) /\
  (forall k, In k (seq 0 9) -> empty_at board k = true ->
     -1 <= score_of (minimax fuel self SameList (<[k := mark]> board)
                       depth ai_turn) <= 1).
Proof.
  intros IH Hlen Hm Hfuel.
  assert (Hchild : forall k, empty_at board k = true ->
            exists v, minimax fuel self SameList (<[k := mark]> board)
                        depth ai_turn = Ok (v, <[k := mark]> board) /\
                      -1 <= v <= 1).
  { intros k He. apply IH; [now rewrite length_insert|].
    rewrite (count_empty_place board k mark He Hm) in Hfuel. lia. }
  split.
  - intros k Hk. apply in_seq in Hk. split; [lia|].
    intros He. destruct (Hchild k He) as (v & Hv & _). eauto.
  - intros k _ He. destruct (Hchild k He) as (v & -> & Hv). exact Hv.
Qed.

(** On nine cells, fuel above the number of empty cells is enough: the
    call returns a score in [-1, 1] and the board as it found it. *)
Lemma minimax_returns fuel : forall self board depth ai_turn,
  length board = 9%nat -> AI.id self <> EMPTY ->
  (count_empty board < fuel)%nat ->
  exists v, minimax fuel self SameList board depth ai_turn = Ok (v, board) /\
            -1 <= v <= 1.
Proof.
  induction fuel as [|fuel IH]; intros self board depth ai_turn Hlen Hid Hfuel;
    [lia|].
  rewrite minimax_unfold.
  assert (Hw : exists w, check_win board = Ok w).
  { destruct (check_win_total board Hlen) as [E|[E|E]]; eauto. }
  destruct Hw as [w ->]. simpl.
  destruct (String.eqb w (AI.opponent self)); [exists (-1); split; [easy|lia]|].
  destruct (negb (String.eqb w "None")); [exists 1; split; [easy|lia]|].
  destruct (board_is_full_spec board Hlen) as (full & Hfull & _).
  rewrite Hfull. simpl. destruct full; [exists 0; split; [easy|lia]|].
  destruct (board_not_full_cell board Hlen Hfull) as (k0 & Hk0 & He0).
  change (self_board SameList) with (fun b : list string => b).
  rewrite range9_seq. destruct ai_turn.
  - destruct (minimax_probes fuel self board (depth + 1) false (AI.id self))
      as [Hp Hv]; auto.
    rewrite (probe_loop _ _ _ _ _ _ Hp). eexists. split; [reflexivity|].
    apply fold_max_range; eauto.
  - destruct (minimax_probes fuel self board (depth + 1) true (other_mark self))
      as [Hp Hv]; auto using other_mark_not_empty.
    rewrite (probe_loop _ _ _ _ _ _ Hp). eexists. split; [reflexivity|].
    apply fold_min_range; eauto.
Qed.

Lemma count_empty_le_9 board : length board = 9%nat -> (count_empty board <= 9)%nat.
Proof. intros <-. apply count_mark_le_length. Qed.

(** * The choice of [get_move_helper] *)

(** The scan keeps the first cell whose score beats every score before it
    and is not beaten after it. *)
Lemma fold_choice_spec board val ks : forall bm bv,
  let r := fold_choice board val ks (bm, bv) in
  bv <= snd r /\
  (forall k, In k ks -> empty_at board k = true -> val k <= snd r) /\
  (r = (bm, bv) \/
   exists pre k post,
     ks = (pre ++ k :: post)%list /\ empty_at board k = true /\
     r = (Some (Z.of_nat k), val k) /\ bv < val k /\
     forall j, In j pre -> empty_at board j = true -> val j < val k).
Proof.
  induction ks as [|k ks IH]; intros bm bv r; subst r.
  - unfold fold_choice; simpl. repeat split; [lia|easy|now left].
  - rewrite fold_choice_cons. simpl snd.
    destruct (empty_at board k) eqn:He;
      [destruct (val k >? bv) eqn:Hgt;
       [apply Z.gtb_lt in Hgt|rewrite Z.gtb_ltb in Hgt; apply Z.ltb_ge in Hgt]|].
    + destruct (IH (Some (Z.of_nat k)) (val k)) as (H1 & H2 & H3).
      repeat split.
      * lia.
      * intros j [<-|Hj] Hje; [lia|now apply H2].
      * right. destruct H3 as [H3|(pre & k' & post & -> & He' & H3 & Hlt & Hpre)].
        -- exists [], k, ks. repeat split; auto. intros j [].
        -- exists (k :: pre), k', post. repeat split; auto; [lia|].
           intros j [<-|Hj] Hje; [lia|now apply Hpre].
    + destruct (IH bm bv) as (H1 & H2 & H3). repeat split.
      * exact H1.
      * intros j [<-|Hj] Hje; [lia|now apply H2].
      * destruct H3 as [H3|(pre & k' & post & -> & He' & H3 & Hlt & Hpre)];
          [now left|right].
        exists (k :: pre), k', post. repeat split; auto.
        intros j [<-|Hj] Hje; [lia|now apply Hpre].
    + destruct (IH bm bv) as (H1 & H2 & H3). repeat split.
      * exact H1.
      * intros j [<-|Hj] Hje; [congruence|now apply H2].
      * destruct H3 as [H3|(pre & k' & post & -> & He' & H3 & Hlt & Hpre)];
          [now left|right].
        exists (k :: pre), k', post. repeat split; auto.
        intros j [<-|Hj] Hje; [congruence|now apply Hpre].
Qed.

(** [get_move_helper] on the list the computer owns, as a fold. *)
Lemma get_move_helper_fold fuel self board :
  length board = 9%nat -> AI.id self <> EMPTY ->
  (count_empty board <= fuel)%nat ->
  get_move_helper fuel self SameList board =
  Ok (fst (fold_choice board
             (fun k => score_of (minimax fuel self SameList
                                   (<[k := AI.id self]> board) 0 false))
             (seq 0 9) (None, -1)),
      board).
Proof.
  intros Hlen Hid Hfuel. rewrite get_move_helper_unfold, range9_seq.
  assert (Hp : probes_return (AI.id self)
                 (fun b => minimax fuel self SameList b 0 false) board (seq 0 9)).
  { apply (minimax_probes fuel self board 0 false (AI.id self)); auto; [|lia].
    intros b Hb Hc. now apply minimax_returns. }
  now rewrite (try_move_loop _ _ _ _ _ Hp).
Qed.

(** * Claims *)

Lemma position_spec (n : nat) (i : Z) :
  (0 <= i < Z.of_nat n -> position n i = Some (Z.to_nat i)) /\
  (- Z.of_nat n <= i < 0 -> position n i = Some (Z.to_nat (i + Z.of_nat n))) /\
  (i < - Z.of_nat n \/ Z.of_nat n <= i -> position n i = None).
Proof.
  unfold position.
  destruct (Z.leb_spec 0 i), (Z.ltb_spec i (Z.of_nat n)),
    (Z.leb_spec (- Z.of_nat n) i), (Z.ltb_spec i 0); simpl;
    repeat split; intros; try reflexivity; lia.
Qed.

(** C3 (as the code has it).  [update_board] checks nothing: on nine cells
    every index from -9 to 8 is written, a negative one counting from the
    end, whatever the cell held; exactly that cell changes, to the game's
    current turn, and the turn flips.  Only an index outside [-9, 8] raises
    ([IndexError]), and [None] raises [TypeError]. *)
Theorem update_board_writes (self : Game.t) (turn : string) (i : Z) :
  length (Game.board self) = 9%nat ->
  (-9 <= i <= 8 ->
   exists k, (k < 9)%nat /\
     Z.of_nat k = (if i <? 0 then i + 9 else i) /\
     update_board self turn (Some i) =
       Ok {| Game.board := <[k := Game.turn self]> (Game.board self);
             Game.moves_count := Game.moves_count self;
             Game.playerO := Game.playerO self;
             Game.turn := next_turn (Game.turn self) |} /\
     <[k := Game.turn self]> (Game.board self) !! k = Some (Game.turn self) /\
     forall j, j <> k ->
       <[k := Game.turn self]> (Game.board self) !! j = Game.board self !! j) /\
  (i < -9 \/ 8 < i -> update_board self turn (Some i) = Raise IndexError) /\
  update_board self turn None = Raise TypeError.
Proof.
  intros Hlen. destruct (position_spec 9 i) as (Hpos & Hneg & Hout).
  split; [|split; [|reflexivity]].
  - intros Hi.
    assert (Hk : exists k, (k < 9)%nat /\
              Z.of_nat k = (if i <? 0 then i + 9 else i) /\
              position 9 i = Some k).
    { destruct (Z.ltb_spec i 0).
      - exists (Z.to_nat (i + 9)). rewrite Hneg by lia. repeat split; lia.
      - exists (Z.to_nat i). rewrite Hpos by lia. repeat split; lia. }
    destruct Hk as (k & Hk9 & Hki & Hp). exists k. repeat split; auto.
    + unfold update_board, setitem. now rewrite Hlen, Hp.
    + apply list_lookup_insert_eq. lia.
    + intros j Hj. now apply list_lookup_insert_ne.
  - intros Hi. unfold update_board, setitem. rewrite Hlen, Hout; [easy|lia].
Qed.

Lemma update_board_writes_witness :
  exists k, (k < 9)%nat /\ Z.of_nat k = 8 /\
    update_board (Game.init Human) "X" (Some (-1)) =
      Ok {| Game.board := <[k := "X"]> empty_board;
            Game.moves_count := 0;
            Game.playerO := Human;
            Game.turn := "O" |}.
Proof.
  destruct (update_board_writes (Game.init Human) "X" (-1) eq_refl)
    as (H & _ & _).
  destruct H as (k & Hk & Hki & Hu & _); [lia|].
  exists k. repeat split; [exact Hk|exact Hki|exact Hu].
Defined.

(** C3 (as stated) fails: re-marking the occupied cell 0 succeeds and
    overwrites it, and index -1 succeeds and marks cell 8. *)
Lemma update_board_accepts_bad_moves :
  update_board game_after_X0 "O" (Some 0) =
    Ok {| Game.board := ["O"; "_"; "_"; "_"; "_"; "_"; "_"; "_"; "_"];
          Game.moves_count := 1;
          Game.playerO := Human;
          Game.turn := "X" |} /\
  update_board (Game.init Human) "X" (Some (-1)) =
    Ok {| Game.board := ["_"; "_"; "_"; "_"; "_"; "_"; "_"; "_"; "X"];
          Game.moves_count := 0;
          Game.playerO := Human;
          Game.turn := "O" |}.
Proof. split; reflexivity. Qed.

(** C10.  The [turn] argument of [update_board] is never read: any two
    values give the same result, and when the call succeeds the cell written
    holds the game's own [turn], which is then flipped. *)
Theorem update_board_ignores_turn (self : Game.t) (t1 t2 : string)
    (location : option Z) :
  update_board self t1 location = update_board self t2 location /\
  forall g, update_board self t1 location = Ok g ->
    exists i k, location = Some i /\
      position (length (Game.board self)) i = Some k /\
      Game.board g = <[k := Game.turn self]> (Game.board self) /\
      Game.turn g = next_turn (Game.turn self) /\
      Game.moves_count g = Game.moves_count self /\
      Game.playerO g = Game.playerO self.
Proof.
  split; [reflexivity|]. intros g. unfold update_board, setitem.
  destruct location as [i|]; [|discriminate].
  destruct (position (length (Game.board self)) i) as [k|] eqn:Hp;
    [|discriminate].
  simpl. intros [= <-]. exists i, k. simpl. auto 10.
Qed.

(** X1.  Given [self.board] itself, as [AI.get_move] gives it, the search
    leaves the list as it found it.  On nine cells, with fuel for the empty
    cells, [get_move_helper] and every [minimax] call return with the board
    they were given; whenever they return at all (any fuel, any board) the
    board is unchanged; and each mark placed on an empty cell is taken off
    again by the write of ['_'] that follows. *)
Theorem search_restores_board (fuel : nat) (self : AI.t) (board : list string) :
  length board = 9%nat -> AI.id self <> EMPTY ->
  (count_empty board <= fuel)%nat ->
  (exists move, get_move_helper fuel self SameList board = Ok (move, board)) /\
  (forall depth ai_turn,
     exists v, minimax (S fuel) self SameList board depth ai_turn =
               Ok (v, board)) /\
  (forall fuel' b move b',
     get_move_helper fuel' self SameList b = Ok (move, b') -> b' = b) /\
  (forall fuel' b depth ai_turn v b',
     minimax fuel' self SameList b depth ai_turn = Ok (v, b') -> b' = b) /\
  (forall k mark, (k < 9)%nat -> empty_at board k = true ->
     setitem board (Z.of_nat k) mark = Ok (<[k := mark]> board) /\
     setitem (<[k := mark]> board) (Z.of_nat k) EMPTY = Ok board).
Proof.
  intros Hlen Hid Hfuel. repeat split.
  - rewrite get_move_helper_fold by assumption. eauto.
  - intros depth ai_turn.
    destruct (minimax_returns (S fuel) self board depth ai_turn)
      as (v & Hv & _); auto; [lia|eauto].
  - intros fuel' b move b'. apply get_move_helper_restores.
  - intros fuel' b depth ai_turn v b'. apply minimax_restores.
  - apply setitem_nat. lia.
  - apply setitem_back; [lia|assumption].
Qed.

Lemma search_restores_board_witness :
  exists move, get_move_helper 9 computer SameList board_threat =
               Ok (move, board_threat).
Proof.
  destruct (search_restores_board 9 computer board_threat) as (H & _).
  - reflexivity.
  - discriminate.
  - vm_compute. lia.
  - exact H.
Defined.

(** X2.  Given [self.board] itself, [minimax] has no depth limit and needs
    none: the depth argument is never read, every recursive call is made on
    a board with one empty cell fewer, and the call returns as soon as the
    nesting may be as deep as the number of empty cells plus one, at most
    ten calls on nine cells. *)
Theorem minimax_terminates (self : AI.t) (board : list string) (depth : Z)
    (ai_turn : bool) :
  length board = 9%nat -> AI.id self <> EMPTY ->
  (count_empty board <= 9)%nat /\
  (exists v, minimax (S (count_empty board)) self SameList board depth ai_turn
             = Ok (v, board) /\ -1 <= v <= 1) /\
  (forall fuel, (count_empty board < fuel)%nat ->
     exists v, minimax fuel self SameList board depth ai_turn = Ok (v, board)) /\
  (forall k mark, empty_at board k = true -> mark <> EMPTY ->
     (count_empty (<[k := mark]> board) < count_empty board)%nat) /\
  (forall fuel depth',
     minimax fuel self SameList board depth ai_turn =
     minimax fuel self SameList board depth' ai_turn).
Proof.
  intros Hlen Hid. repeat split.
  - now apply count_empty_le_9.
  - apply minimax_returns; auto.
  - intros fuel Hfuel.
    destruct (minimax_returns fuel self board depth ai_turn) as (v & Hv & _);
      eauto.
  - intros k mark He Hm. rewrite (count_empty_place board k mark He Hm). lia.
  - intros fuel depth'. apply minimax_depth.
Qed.

Lemma minimax_terminates_witness :
  exists v, minimax (S (count_empty board_threat)) computer SameList
              board_threat 0 true = Ok (v, board_threat) /\ -1 <= v <= 1.
Proof.
  destruct (minimax_terminates computer board_threat 0 true) as (_ & H & _).
  - reflexivity.
  - discriminate.
  - exact H.
Defined.

Lemma outcome_spec board :
  length board = 9%nat ->
  (forall mark, outcome board = Ok (Win mark) <->
     check_win board = Ok mark /\ mark <> "None") /\
  (outcome board = Ok Draw <->
     check_win board = Ok "None" /\ board_is_full board = Ok true) /\
  (outcome board = Ok InProgress <->
     check_win board = Ok "None" /\ board_is_full board = Ok false).
Proof.
  intros Hlen. unfold outcome.
  destruct (board_is_full_spec board Hlen) as (full & Hfull & _).
  destruct (check_win_total board Hlen) as [E|[E|E]]; rewrite E, ?Hfull; simpl.
  1,2: split; [intros mark; split;
                 [intros [= <-]; split; [reflexivity|discriminate]
                 |intros ([= <-] & _); reflexivity]
              |split; (split; [discriminate|intros [H _]; discriminate H])].
  split; [intros mark; split;
            [destruct full; discriminate|intros ([= <-] & H); congruence]|].
  split; destruct full; split; intros H; try discriminate H;
    try (split; reflexivity); try reflexivity;
    destruct H as [_ H]; discriminate H.
Qed.

(** C2 (as the code has it).  On nine cells [check_win] answers the mark of
    the first win condition, in the order of [win_conditions], that ['X'] or
    ['O'] holds in full, and ['None'] when neither holds any; so an answered
    mark does hold a line.  With no line held the outcome is a draw exactly
    when no cell is ['_'] and the game is in progress otherwise; the full
    board X O X / X O O / O X X is a draw and [board_is_full] is true on
    it. *)
Theorem check_win_first_line (board : list string) :
  length board = 9%nat ->
  (forall mark, mark = "X" \/ mark = "O" ->
     (check_win board = Ok mark <-> first_full board win_conditions mark) /\
     (outcome board = Ok (Win mark) <-> first_full board win_conditions mark) /\
     (check_win board = Ok mark ->
      exists w, In w win_conditions /\ line_full board w mark)) /\
  (check_win board = Ok "None" <->
   forall w, In w win_conditions -> ~ line_won board w) /\
  ((forall w, In w win_conditions -> ~ line_won board w) ->
   (outcome board = Ok Draw <->
    forall i, In i range9 -> getitem board i <> Ok EMPTY) /\
   (outcome board = Ok InProgress <->
    exists i, In i range9 /\ getitem board i = Ok EMPTY)) /\
  check_win board_draw = Ok "None" /\
  outcome board_draw = Ok Draw /\
  board_is_full board_draw = Ok true.
Proof.
  intros Hlen.
  pose proof (check_win_from_mark board win_conditions) as Hmark.
  pose proof (check_win_from_none board win_conditions Hlen
                win_conditions_in_board) as Hnone.
  destruct (outcome_spec board Hlen) as (Hwin & Hdraw & Hprog).
  split; [|split; [exact Hnone|split; [|repeat split; reflexivity]]].
  - intros mark Hm.
    specialize (Hmark mark Hlen win_conditions_in_board Hm).
    fold (check_win board) in Hmark. repeat split.
    + apply Hmark.
    + apply Hmark.
    + intros H. apply Hwin in H. destruct H as [H _]. now apply Hmark.
    + intros H. apply Hwin. split; [now apply Hmark|].
      destruct Hm as [->| ->]; discriminate.
    + intros H. apply Hmark in H. now apply first_full_won.
  - intros Hno. apply Hnone in Hno. fold (check_win board) in Hno.
    destruct (board_is_full_spec board Hlen) as (full & Hfull & Hall).
    split.
    + rewrite Hdraw, <- Hall. split.
      * intros (_ & H). congruence.
      * intros ->. easy.
    + rewrite Hprog. split.
      * intros (_ & H). apply board_not_full_free in H. exact H.
      * intros (i & Hi & Hc). split; [exact Hno|].
        destruct full; [|exact Hfull].
        exfalso. destruct Hall as [Hall _]. now apply (Hall eq_refl i).
Qed.

Lemma check_win_first_line_witness :
  check_win board_threat = Ok "None" <->
  forall w, In w win_conditions -> ~ line_won board_threat w.
Proof.
  destruct (check_win_first_line board_threat eq_refl) as (_ & H & _).
  exact H.
Defined.

(** C2 (as stated) fails on X X X / O O O / _ _ _: the second row is fully
    occupied by ['O'], yet [check_win] answers ['X']. *)
Lemma check_win_two_rows :
  line_full board_two_rows (3, 4, 5) "O" /\
  In (3, 4, 5) win_conditions /\
  check_win board_two_rows = Ok "X" /\
  ~ (check_win board_two_rows = Ok "O" <->
     exists w, In w win_conditions /\ line_full board_two_rows w "O").
Proof.
  assert (H : line_full board_two_rows (3, 4, 5) "O") by (repeat split).
  assert (Hin : In (3, 4, 5) win_conditions) by (simpl; auto).
  repeat split; try apply H; try exact Hin.
  intros [_ Hiff]. discriminate Hiff. eauto.
Qed.

(** C4 (the code at a board it loses).  On X O _ / _ X _ / X _ O, with the
    computer to move, every move scores -1, nothing beats the starting
    [best_value] of -1, and [get_move_helper] answers [None] although four
    cells are empty; [update_board] then raises [TypeError] on it. *)
Theorem get_move_helper_none_when_lost :
  count_empty board_fork = 4%nat /\
  get_move_helper 10 computer SameList board_fork = Ok (None, board_fork) /\
  (forall fuel r,
     get_move_helper fuel computer SameList board_fork = Ok r ->
     r = (None, board_fork)) /\
  (forall g turn, update_board g turn None = Raise TypeError).
Proof.
  assert (H : get_move_helper 10 computer SameList board_fork =
              Ok (None, board_fork)) by (vm_compute; reflexivity).
  split; [reflexivity|]. split; [exact H|]. split; [|reflexivity].
  intros fuel r Hr. eapply get_move_helper_deterministic; eauto.
Qed.

(** In an ascending scan, what comes before [k] is what is below [k]. *)
Lemma seq_split_before pre : forall (a n : nat) k post j,
  seq a n = (pre ++ k :: post)%list -> (a <= j < k)%nat -> In j pre.
Proof.
  induction pre as [|p pre IH]; intros a n k post j Hs Hj;
    (destruct n as [|n]; [discriminate Hs|]); simpl in Hs;
    injection Hs as Ha Hs.
  - lia.
  - subst p. destruct (Nat.eq_dec j a) as [->|Hne]; [now left|right].
    eapply IH; [exact Hs|lia].
Qed.

(** The move [get_move_helper] answers: an empty cell whose score is above
    -1, at least the score of every empty cell and strictly above the score
    of every empty cell scanned before it. *)
Lemma get_move_helper_choice fuel self board i :
  length board = 9%nat -> AI.id self <> EMPTY ->
  (count_empty board <= fuel)%nat ->
  get_move_helper fuel self SameList board = Ok (Some i, board) ->
  exists k, i = Z.of_nat k /\ (k < 9)%nat /\ empty_at board k = true /\
    let val j := score_of (minimax fuel self SameList
                             (<[j := AI.id self]> board) 0 false) in
    -1 < val k /\
    (forall j, (j < 9)%nat -> empty_at board j = true -> val j <= val k) /\
    (forall j, (j < k)%nat -> empty_at board j = true -> val j < val k).
Proof.
  intros Hlen Hid Hfuel. rewrite get_move_helper_fold by assumption.
  set (val := fun j => score_of _).
  destruct (fold_choice_spec board val (seq 0 9) None (-1))
    as (_ & Hmax & [Hr|(pre & k & post & Hs & He & Hr & Hlt & Hpre)]);
    rewrite Hr in *; simpl; [discriminate|].
  intros [= <-]. exists k.
  assert (Hk : In k (seq 0 9)) by (rewrite Hs; apply in_elt).
  apply in_seq in Hk. repeat split; auto; try lia.
  - intros j Hj Hje. apply Hmax; [apply in_seq; lia|exact Hje].
  - intros j Hj Hje. apply Hpre; [|exact Hje].
    eapply (seq_split_before pre 0%nat); [exact Hs|lia].
Qed.

(** X4.  Given [self.board] itself: on X X _ / O O _ / _ _ _ with the
    computer playing O the answer is index 2, whatever the fuel: cells 2 and
    5 both score +1 and 2 is scanned first.  In general the answer is the
    first empty cell, in ascending order, that reaches the best score. *)
Theorem best_move_first_of_equals :
  get_move_helper 10 computer SameList board_threat =
    Ok (Some 2, board_threat) /\
  (forall fuel r,
     get_move_helper fuel computer SameList board_threat = Ok r ->
     r = (Some 2, board_threat)) /\
  value (<[2%nat := "O"]> board_threat) false = 1 /\
  value (<[5%nat := "O"]> board_threat) false = 1 /\
  (forall fuel self board i,
     length board = 9%nat -> AI.id self <> EMPTY ->
     (count_empty board <= fuel)%nat ->
     get_move_helper fuel self SameList board = Ok (Some i, board) ->
     exists k, i = Z.of_nat k /\ (k < 9)%nat /\ empty_at board k = true /\
       let val j := score_of (minimax fuel self SameList
                                (<[j := AI.id self]> board) 0 false) in
       -1 < val k /\
       (forall j, (j < 9)%nat -> empty_at board j = true -> val j <= val k) /\
       (forall j, (j < k)%nat -> empty_at board j = true -> val j < val k)).
Proof.
  assert (H : get_move_helper 10 computer SameList board_threat =
              Ok (Some 2, board_threat)) by (vm_compute; reflexivity).
  split; [exact H|]. split.
  { intros fuel r Hr. eapply get_move_helper_deterministic; eauto. }
  split; [vm_compute; reflexivity|]. split; [vm_compute; reflexivity|].
  intros fuel self board i. apply get_move_helper_choice.
Qed.

(** * The score of a board *)

Lemma minimax_value fuel board depth ai_turn :
  length board = 9%nat -> (count_empty board < fuel)%nat ->
  minimax fuel computer SameList board depth ai_turn =
  Ok (value board ai_turn, board).
Proof.
  intros Hlen Hfuel.
  destruct (minimax_returns fuel computer board depth ai_turn Hlen)
    as (v & Hv & _); [discriminate|exact Hfuel|].
  destruct (minimax_returns 10 computer board 0 ai_turn Hlen)
    as (v' & Hv' & _); [discriminate|pose proof (count_empty_le_9 _ Hlen); lia|].
  rewrite Hv. unfold value. rewrite Hv'. simpl.
  rewrite (minimax_depth fuel computer SameList board depth 0) in Hv.
  now rewrite (minimax_deterministic _ _ _ _ _ _ _ _ _ Hv Hv').
Qed.

Lemma value_lost board ai_turn :
  check_win board = Ok "X" -> value board ai_turn = -1.
Proof.
  intros H. unfold value. rewrite minimax_unfold, H. reflexivity.
Qed.

Lemma empty_at_not_full board k :
  length board = 9%nat -> (k < 9)%nat -> empty_at board k = true ->
  board_is_full board = Ok false.
Proof.
  intros Hlen Hk He.
  destruct (board_is_full_spec board Hlen) as (full & -> & Hall).
  destruct full; [|reflexivity]. exfalso.
  destruct Hall as [Hall _]. apply (Hall eq_refl (Z.of_nat k)).
  - rewrite range9_seq. apply in_map, in_seq. lia.
  - apply empty_at_getitem; [lia|exact He].
Qed.

(** With X to move and no line held, no move of X scores below the
    board. *)
Lemma value_min board k :
  length board = 9%nat -> check_win board = Ok "None" ->
  (k < 9)%nat -> empty_at board k = true ->
  value board false <= value (<[k := "X"]> board) true.
Proof.
  intros Hlen Hw Hk He.
  assert (Hc : (count_empty board <= 9)%nat) by now apply count_empty_le_9.
  unfold value at 1. rewrite minimax_unfold, Hw. simpl.
  rewrite (empty_at_not_full board k Hlen Hk He). simpl.
  assert (Hchild : forall j, empty_at board j = true ->
            minimax 9 computer SameList (<[j := "X"]> board) (0 + 1) true =
            Ok (value (<[j := "X"]> board) true, <[j := "X"]> board)).
  { intros j Hj. apply minimax_value; [now rewrite length_insert|].
    assert (HX : "X" <> EMPTY) by discriminate.
    rewrite (count_empty_place board j "X" Hj HX) in Hc. lia. }
  change (other_mark computer) with "X". rewrite range9_seq.
  rewrite (probe_loop "X" _ board Z.min (seq 0 9) 2).
  - set (val := fun j : nat => score_of _).
    change (fold_scores Z.min board val (seq 0 9) 2 <=
            value (<[k := "X"]> board) true).
    destruct (fold_min_spec board val (seq 0 9) 2) as (_ & H & _).
    assert (Hin : In k (seq 0 9)) by (apply in_seq; lia).
    specialize (H k Hin He). unfold val in H at 2.
    now rewrite (Hchild k He) in H.
  - intros j Hj. apply in_seq in Hj. split; [lia|]. intros Hje.
    rewrite (Hchild j Hje). eauto.
Qed.

(** * One turn of the play loop *)

Lemma Player_move_cell board spot :
  length board = 9%nat -> Player_move board spot ->
  exists k, spot = Z.of_nat k /\ (k < 9)%nat /\ empty_at board k = true.
Proof.
  intros Hlen ([s|] & H & Hne); [|simpl in H; congruence].
  unfold Player_get_move in H.
  destruct (Z.ltb_spec s 0); simpl in H; [congruence|].
  destruct (Z.gtb_spec s 8); simpl in H; [congruence|].
  destruct (getitem board s) as [c| |] eqn:Hc; simpl in H; try discriminate.
  destruct (String.eqb_spec c EMPTY) as [->|_]; simpl in H; [|congruence].
  injection H as <-. exists (Z.to_nat s). rewrite Z2Nat.id by lia.
  repeat split; [lia|]. apply empty_at_getitem; [lia|].
  now rewrite Z2Nat.id by lia.
Qed.

Lemma update_at_cell g board' k :
  board' = Game.board g -> (k < length (Game.board g))%nat ->
  get_move_and_update_board (with_board g board') (Some (Z.of_nat k)) =
  Ok (moved g k).
Proof.
  intros -> Hk. unfold get_move_and_update_board, update_board. simpl.
  now rewrite setitem_nat by exact Hk.
Qed.

(** A turn that does not raise marks an empty cell for the player whose
    turn it is; when that player is the computer, the cell is one after
    which the board does not score as lost. *)
Lemma turn_step_moved g g' :
  length (Game.board g) = 9%nat -> turn_step g g' ->
  exists k, (k < 9)%nat /\ empty_at (Game.board g) k = true /\
    g' = moved g k /\
    (Game.turn g <> "X" -> Game.playerO g = Computer ->
     0 <= value (<[k := "O"]> (Game.board g)) false).
Proof.
  intros Hlen (location & board' & Hch & Hup).
  destruct Hch as [spot Ht Hm|spot Ht Ho Hm|fuel location board' Ht Ho Hai].
  - destruct (Player_move_cell _ _ Hlen Hm) as (k & -> & Hk & He).
    rewrite update_at_cell in Hup by (auto; lia). injection Hup as <-.
    exists k. repeat split; auto. congruence.
  - destruct (Player_move_cell _ _ Hlen Hm) as (k & -> & Hk & He).
    rewrite update_at_cell in Hup by (auto; lia). injection Hup as <-.
    exists k. repeat split; auto. congruence.
  - unfold AI_move, get_move in Hai. change (AI.init "O") with computer in Hai.
    destruct (get_move_helper fuel computer SameList (Game.board g))
      as [[move b]| |] eqn:Hg; simpl in Hai; try discriminate.
    assert (Hr : (move, b) = (location, board')).
    { destruct move as [[|p|[p|p|]]|]; simpl in Hai; congruence. }
    injection Hr as -> ->.
    pose proof (get_move_helper_restores _ _ _ _ _ Hg) as ->.
    destruct location as [i|]; [|discriminate Hup].
    apply (get_move_helper_fuel_le _ (Nat.max fuel 9)) in Hg; [|lia].
    pose proof (count_empty_le_9 _ Hlen) as Hc.
    destruct (get_move_helper_choice (Nat.max fuel 9) computer
                (Game.board g) i Hlen) as (k & -> & Hk & He & Hv & _);
      [discriminate|lia|exact Hg|].
    rewrite update_at_cell in Hup by (auto; lia). injection Hup as <-.
    exists k. repeat split; auto. intros _ _.
    change (AI.id computer) with "O" in Hv.
    rewrite minimax_value in Hv; [simpl in Hv; lia|now rewrite length_insert|].
    assert (HO : "O" <> EMPTY) by discriminate.
    rewrite (count_empty_place _ k "O" He HO) in Hc. lia.
Qed.

Lemma reaches_invariant (P : Game.t -> Prop) :
  (forall g g', P g -> continues g -> turn_step g g' -> P g') ->
  forall g g', reaches g g' -> P g -> P g'.
Proof. intros Hstep g g'. induction 1; eauto. Qed.

(** * Marks alternate *)

Lemma empty_at_lookup board k :
  empty_at board k = true -> board !! k = Some EMPTY.
Proof.
  unfold empty_at. destruct (board !! k) as [c|]; [|discriminate].
  intros H. apply String.eqb_eq in H. now subst c.
Qed.

Lemma well_formed_init o : well_formed (Game.init o).
Proof.
  unfold well_formed; simpl. repeat split.
  - repeat (apply Forall_cons; split; [right; right; reflexivity|]).
    apply Forall_nil. exact I.
  - left. split; reflexivity.
Qed.

Lemma well_formed_moved g k :
  well_formed g -> empty_at (Game.board g) k = true -> well_formed (moved g k).
Proof.
  intros (Hlen & Hcells & Hturn & Hcount) He.
  apply empty_at_lookup in He.
  pose proof (count_mark_insert "X" _ k EMPTY (Game.turn g) He) as HX.
  pose proof (count_mark_insert "O" _ k EMPTY (Game.turn g) He) as HO.
  assert (B1 : bump "X" EMPTY = 0%nat) by reflexivity.
  assert (B2 : bump "O" EMPTY = 0%nat) by reflexivity.
  assert (B3 : bump "X" "X" = 1%nat) by reflexivity.
  assert (B4 : bump "O" "O" = 1%nat) by reflexivity.
  assert (B5 : bump "X" "O" = 0%nat) by reflexivity.
  assert (B6 : bump "O" "X" = 0%nat) by reflexivity.
  unfold well_formed, moved; simpl.
  split; [now rewrite length_insert|].
  destruct Hturn as [[Ht Hc]|[Ht Hc]]; rewrite Ht in *;
    rewrite ?B1, ?B2, ?B3, ?B4, ?B5, ?B6 in HX, HO.
  - split; [apply Forall_insert; [exact Hcells|now left]|].
    split; [right; split; [reflexivity|lia]|lia].
  - split; [apply Forall_insert; [exact Hcells|right; now left]|].
    split; [left; split; [reflexivity|lia]|lia].
Qed.

Lemma reaches_well_formed o g : reaches (Game.init o) g -> well_formed g.
Proof.
  intros H. apply (reaches_invariant well_formed) with (g := Game.init o);
    [|exact H|apply well_formed_init].
  intros g1 g2 Hwf _ Hstep.
  destruct (turn_step_moved g1 g2 (proj1 Hwf) Hstep) as (k & _ & He & -> & _).
  now apply well_formed_moved.
Qed.

Lemma reaches_after_first_move o :
  reaches (Game.init o) (moved (Game.init o) 0).
Proof.
  apply reaches_turn with (g1 := moved (Game.init o) 0);
    [split; [reflexivity|discriminate]| |apply reaches_here].
  exists (Some 0), (Game.board (Game.init o)). split; [|reflexivity].
  apply chooses_playerX; [reflexivity|].
  exists (Some 0). split; [reflexivity|discriminate].
Qed.

(** C9.  In every state the play loop comes through from the initial game,
    the board has nine cells, each holding 'X', 'O' or '_'; when it is X's
    turn the two marks are equally many and when it is O's turn there is one
    X more, so the counts never differ by more than one; and [moves_count]
    is the number of marks on the board. *)
Theorem marks_alternate o g :
  reaches (Game.init o) g ->
  length (Game.board g) = 9%nat /\
  Forall is_cell (Game.board g) /\
  ((Game.turn g = "X" /\
    count_mark "X" (Game.board g) = count_mark "O" (Game.board g)) \/
   (Game.turn g = "O" /\
    count_mark "X" (Game.board g) = S (count_mark "O" (Game.board g)))) /\
  Game.moves_count g =
    Z.of_nat (count_mark "X" (Game.board g) + count_mark "O" (Game.board g)).
Proof. intros H. exact (reaches_well_formed o g H). Qed.

Lemma marks_alternate_witness :
  reaches (Game.init Human) game_after_X0 /\
  count_mark "X" (Game.board game_after_X0) =
  S (count_mark "O" (Game.board game_after_X0)).
Proof.
  assert (H : reaches (Game.init Human) game_after_X0)
    by exact (reaches_after_first_move Human).
  split; [exact H|].
  destruct (marks_alternate Human game_after_X0 H)
    as (_ & _ & [[Ht _]|[_ Hc]] & _); [discriminate Ht|exact Hc].
Defined.

(** * The score of a board from the scores of its successors *)

Section Children.
Variables (fuel : nat) (self : AI.t) (board : list string) (depth : Z).
Hypothesis Hlen : length board = 9%nat.
Hypothesis Hid : AI.id self <> EMPTY.
Hypothesis Hfuel : (count_empty board < S fuel)%nat.

Lemma child_returns mark turn k :
mark <> EMPTY -> empty_at board k = true ->
exists v, minimax fuel self SameList (<[k := mark]> board) (depth + 1) turn =
          Ok (v, <[k := mark]> board) /\ -1 <= v <= 1.
Proof.
intros Hm He. apply minimax_returns; [now rewrite length_insert|exact Hid|].
rewrite (count_empty_place board k mark He Hm) in Hfuel. lia.
Qed.

(** One level of fuel more does not change the score of a successor. *)
Lemma child_score mark turn k :
mark <> EMPTY -> empty_at board k = true ->
score_of (minimax fuel self SameList (<[k := mark]> board) (depth + 1) turn) =
score_of (minimax (S fuel) self SameList (<[k := mark]> board) (depth + 1)
            turn).
Proof.
intros Hm He. destruct (child_returns mark turn k Hm He) as (v & Hv & _).
now rewrite (minimax_fuel_S _ _ _ _ _ _ _ Hv), Hv.
Qed.

Lemma children_return mark turn :
mark <> EMPTY ->
probes_return mark
  (fun b => minimax fuel self SameList b (depth + 1) turn) board (seq 0 9) /\
(forall k, In k (seq 0 9) -> empty_at board k = true ->
   -1 <= score_of (minimax fuel self SameList (<[k := mark]> board)
                     (depth + 1) turn) <= 1).
Proof.
intros Hm. apply minimax_probes; auto.
intros b Hb Hc. now apply minimax_returns.
Qed.

Lemma maximizer_loop :
board_is_full board = Ok false ->
exists v,
  for_each range9
    (probe Z.max (fun b => b) (AI.id self)
       (fun b => minimax fuel self SameList b (depth + 1) false))
    (-2, board) = Ok (v, board) /\
  -1 <= v <= 1 /\
  (forall k, (k < 9)%nat -> empty_at board k = true ->
     score_of (minimax (S fuel) self SameList (<[k := AI.id self]> board)
                 (depth + 1) false) <= v) /\
  (exists k, (k < 9)%nat /\ empty_at board k = true /\
     v = score_of (minimax (S fuel) self SameList
                     (<[k := AI.id self]> board) (depth + 1) false)).
Proof.
intros Hfull.
destruct (children_return (AI.id self) false Hid) as [Hp Hv].
rewrite range9_seq, (probe_loop _ _ _ _ _ _ Hp).
eexists. split; [reflexivity|].
set (val := fun k : nat => score_of _).
destruct (fold_max_spec board val (seq 0 9) (-2)) as (_ & H2 & H3).
pose proof (fold_max_range board val (seq 0 9) Hv
              (board_not_full_cell board Hlen Hfull)) as Hr.
split; [exact Hr|]. split.
- intros k Hk He. rewrite <- (child_score _ _ _ Hid He).
  apply (H2 k); [apply in_seq; lia|exact He].
- destruct H3 as [H3|(k & Hk & He & H3)]; [lia|].
  exists k. apply in_seq in Hk. split; [lia|]. split; [exact He|].
  now rewrite <- (child_score _ _ _ Hid He).
Qed.

Lemma minimizer_loop :
board_is_full board = Ok false ->
exists v,
  for_each range9
    (probe Z.min (fun b => b) (other_mark self)
       (fun b => minimax fuel self SameList b (depth + 1) true))
    (2, board) = Ok (v, board) /\
  -1 <= v <= 1 /\
  (forall k, (k < 9)%nat -> empty_at board k = true ->
     v <= score_of (minimax (S fuel) self SameList
                      (<[k := other_mark self]> board) (depth + 1) true)) /\
  (exists k, (k < 9)%nat /\ empty_at board k = true /\
     v = score_of (minimax (S fuel) self SameList
                     (<[k := other_mark self]> board) (depth + 1) true)).
Proof.
intros Hfull. pose proof (other_mark_not_empty self) as Hm.
destruct (children_return (other_mark self) true Hm) as [Hp Hv].
rewrite range9_seq, (probe_loop _ _ _ _ _ _ Hp).
eexists. split; [reflexivity|].
set (val := fun k : nat => score_of _).
destruct (fold_min_spec board val (seq 0 9) 2) as (_ & H2 & H3).
pose proof (fold_min_range board val (seq 0 9) Hv
              (board_not_full_cell board Hlen Hfull)) as Hr.
split; [exact Hr|]. split.
- intros k Hk He. rewrite <- (child_score _ _ _ Hm He).
  apply (H2 k); [apply in_seq; lia|exact He].
- destruct H3 as [H3|(k & Hk & He & H3)]; [lia|].
  exists k. apply in_seq in Hk. split; [lia|]. split; [exact He|].
  now rewrite <- (child_score _ _ _ Hm He).
Qed.

End Children.

(** X3.  For the AI of mark [id] ('X' or 'O') called on its own board of
    nine cells, with fuel above the number of empty cells: the call returns
    a score [v] in {-1, 0, 1} and the board as it was; [v] is -1 when
    [check_win] answers the opponent's mark, else +1 when it answers the
    AI's mark, else 0 when the board is full; otherwise [v] is the greatest
    score of the boards with [id] in one more cell when [ai_turn] holds, and
    the least score of the boards with the opponent's mark in one more cell
    when it does not. *)
Theorem minimax_scores fuel id board depth ai_turn :
  id = "X" \/ id = "O" ->
  length board = 9%nat -> (count_empty board < fuel)%nat ->
  exists v,
    minimax fuel (AI.init id) SameList board depth ai_turn = Ok (v, board) /\
    (v = -1 \/ v = 0 \/ v = 1) /\
    (check_win board = Ok (AI.opponent (AI.init id)) -> v = -1) /\
    (check_win board = Ok id -> v = 1) /\
    (check_win board = Ok "None" -> board_is_full board = Ok true -> v = 0) /\
    (check_win board = Ok "None" -> board_is_full board = Ok false ->
     let child mark turn k :=
       score_of (minimax fuel (AI.init id) SameList (<[k := mark]> board)
                   (depth + 1) turn) in
     if ai_turn then
       (forall k, (k < 9)%nat -> empty_at board k = true ->
          child id false k <= v) /\
       (exists k, (k < 9)%nat /\ empty_at board k = true /\
          v = child id false k)
     else
       (forall k, (k < 9)%nat -> empty_at board k = true ->
          v <= child (AI.opponent (AI.init id)) true k) /\
       (exists k, (k < 9)%nat /\ empty_at board k = true /\
          v = child (AI.opponent (AI.init id)) true k)).
Proof.
  intros Hid Hlen Hfuel. destruct fuel as [|fuel]; [lia|].
  assert (Hne : AI.id (AI.init id) <> EMPTY)
    by (destruct Hid as [-> | ->]; discriminate).
  rewrite minimax_unfold.
  destruct (board_is_full_spec board Hlen) as (full & Hfull & _).
  destruct (check_win_total board Hlen) as [E|[E|E]]; rewrite E; simpl bind;
    destruct Hid as [-> | ->]; simpl String.eqb; cbv iota; simpl negb;
    cbv iota.
  1-4: eexists; (split; [reflexivity|]); simpl;
       repeat split; auto; try discriminate; try congruence.
  1-2: rewrite Hfull; simpl bind; destruct full.
  1,3: exists 0; repeat split; auto; try discriminate; try congruence.
  1-2: destruct ai_turn;
       [destruct (maximizer_loop fuel (AI.init _) board depth Hlen Hne Hfuel
                    Hfull) as (v & Hv & Hr & Hall & Hex)
       |destruct (minimizer_loop fuel (AI.init _) board depth Hlen Hne Hfuel
                    Hfull) as (v & Hv & Hr & Hall & Hex)];
       exists v; (split; [exact Hv|]); (split; [lia|]);
       (split; [discriminate|]); (split; [discriminate|]);
       (split; [congruence|]); intros _ _; (split; [exact Hall|exact Hex]).
Qed.

Lemma minimax_scores_witness :
  exists v,
    minimax 10 (AI.init "O") SameList board_draw 0 true = Ok (v, board_draw) /\
    v = 0.
Proof.
  destruct (minimax_scores 10 "O" board_draw 0 true)
    as (v & Hv & _ & _ & _ & H0 & _);
    [now right|reflexivity|vm_compute; lia|].
  exists v. split; [exact Hv|]. apply H0; reflexivity.
Defined.

(** * The search on a list that is not [self.board] *)

(** A call on a board that is not over goes into one of the two loops. *)
Lemma minimax_open fuel self own board depth ai_turn :
  check_win board = Ok "None" -> board_is_full board = Ok false ->
  String.eqb "None" (AI.opponent self) = false ->
  minimax (S fuel) self own board depth ai_turn =
  if ai_turn then
    for_each range9
      (probe Z.max (self_board own) (AI.id self)
         (fun b => minimax fuel self own b (depth + 1) false))
      (-2, board)
  else
    for_each range9
      (probe Z.min (fun b => b) (other_mark self)
         (fun b => minimax fuel self own b (depth + 1) true))
      (2, board).
Proof.
  intros Hw Hf Ho. rewrite minimax_unfold, Hw. cbn [bind]. rewrite Ho, Hf.
  reflexivity.
Qed.

Lemma opponent_not_None id : String.eqb "None" (AI.opponent (AI.init id)) = false.
Proof. simpl. now destruct (String.eqb id "O"). Qed.

(** ** Cells that [self.board] shows taken are never tried *)

Lemma probe_skips pick look mark rec i acc board c :
  getitem (look board) i = Ok c -> c <> EMPTY ->
  probe pick look mark rec i (acc, board) = Ok (acc, board).
Proof.
  intros Hc Hne. unfold probe. rewrite Hc. simpl.
  apply String.eqb_neq in Hne. now rewrite Hne.
Qed.

Lemma taken_getitem cells k :
  (k < length cells)%nat -> empty_at cells k = false ->
  exists c, getitem cells (Z.of_nat k) = Ok c /\ c <> EMPTY.
Proof.
  intros Hk He. unfold empty_at in He.
  destruct (lookup_lt_is_Some_2 cells k Hk) as [c Hc]. rewrite Hc in He.
  exists c. split; [|now apply String.eqb_neq].
  rewrite getitem_nat by exact Hk. now rewrite Hc.
Qed.

Lemma maximizer_skips pick mark rec cells board ks : forall acc,
  (forall k, In k ks -> (k < length cells)%nat /\ empty_at cells k = false) ->
  for_each (List.map Z.of_nat ks) (probe pick (fun _ => cells) mark rec)
    (acc, board) = Ok (acc, board).
Proof.
  induction ks as [|k ks IH]; intros acc Hks; [reflexivity|].
  destruct (Hks k (or_introl eq_refl)) as [Hk He].
  destruct (taken_getitem cells k Hk He) as (c & Hc & Hne).
  change (for_each (List.map Z.of_nat (k :: ks)) ?body ?s)
    with (bind (body (Z.of_nat k) s)
            (fun s' => for_each (List.map Z.of_nat ks) body s')).
  rewrite (probe_skips _ _ _ _ _ _ _ c Hc Hne). simpl.
  apply IH. intros j Hj. apply Hks. now right.
Qed.

(** C6 (the maximizer and [self.board]).  The maximizer tests
    [self.board[index]], not [board[index]] (line 70): when the board it is
    given is another list than [self.board] and [self.board] has no empty
    cell, it tries no move at all and returns its starting score -2 for
    every board that is neither won nor full. *)
Theorem minimax_score_below_range fuel id cells board depth :
  length cells = 9%nat ->
  (forall k, (k < 9)%nat -> empty_at cells k = false) ->
  check_win board = Ok "None" -> board_is_full board = Ok false ->
  minimax (S fuel) (AI.init id) (OtherList cells) board depth true =
  Ok (-2, board).
Proof.
  intros Hlen Hcells Hw Hf.
  rewrite minimax_open by (auto using opponent_not_None).
  rewrite range9_seq. apply maximizer_skips.
  intros k Hk. apply in_seq in Hk. split; [lia|apply Hcells; lia].
Qed.

Lemma minimax_score_below_range_witness :
  minimax 1 (AI.init "O") (OtherList board_draw) empty_board 0 true =
  Ok (-2, empty_board).
Proof.
  apply (minimax_score_below_range 0 "O" board_draw empty_board 0);
    try reflexivity.
  intros k Hk. do 9 (destruct k as [|k]; [reflexivity|]). lia.
Defined.

(** ** A call that calls itself *)

Section Loops_late.
Variable rec : list string -> res (Z * list string).

Lemma minimizer_late_O8 :
rec ["X"; "O"; "X"; "X"; "O"; "O"; "X"; "_"; "O"] =
  Ok (-1, ["X"; "O"; "X"; "X"; "O"; "O"; "X"; "_"; "O"]) ->
rec ["X"; "O"; "X"; "X"; "O"; "O"; "_"; "X"; "O"] = Diverge ->
for_each range9 (probe Z.min (fun b => b) "X" rec) (2, board_late_O8) =
Diverge.
Proof.
intros H6 H7. vm_compute. rewrite H6. vm_compute. rewrite H7. reflexivity.
Qed.

Lemma maximizer_late_X7 :
rec ["X"; "O"; "X"; "X"; "O"; "O"; "O"; "X"; "O"] =
  Ok (0, ["X"; "O"; "X"; "X"; "O"; "O"; "O"; "X"; "O"]) ->
rec ["X"; "O"; "X"; "X"; "O"; "O"; "_"; "O"; "O"] =
  Ok (1, ["X"; "O"; "X"; "X"; "O"; "O"; "_"; "O"; "O"]) ->
rec ["X"; "O"; "X"; "X"; "O"; "O"; "_"; "_"; "O"] = Diverge ->
for_each range9 (probe Z.max (fun _ => board_late) "O" rec)
  (-2, ["X"; "O"; "X"; "X"; "O"; "O"; "_"; "X"; "O"]) = Diverge.
Proof.
intros H6 H7 H8. vm_compute. rewrite H6. vm_compute. rewrite H7.
vm_compute. rewrite H8. reflexivity.
Qed.

Lemma maximizer_late_O6_X7 :
rec ["X"; "O"; "X"; "X"; "O"; "O"; "O"; "X"; "_"] =
  Ok (0, ["X"; "O"; "X"; "X"; "O"; "O"; "O"; "X"; "_"]) ->
rec ["X"; "O"; "X"; "X"; "O"; "O"; "_"; "O"; "_"] =
  Ok (1, ["X"; "O"; "X"; "X"; "O"; "O"; "_"; "O"; "_"]) ->
rec ["X"; "O"; "X"; "X"; "O"; "O"; "_"; "_"; "O"] = Diverge ->
for_each range9 (probe Z.max (fun _ => board_late) "O" rec)
  (-2, ["X"; "O"; "X"; "X"; "O"; "O"; "O"; "X"; "_"]) = Diverge.
Proof.
intros H6 H7 H8. vm_compute. rewrite H6. vm_compute. rewrite H7.
vm_compute. rewrite H8. reflexivity.
Qed.

Lemma minimizer_late_O6 :
rec ["X"; "O"; "X"; "X"; "O"; "O"; "O"; "X"; "_"] = Diverge ->
for_each range9 (probe Z.min (fun b => b) "X" rec)
  (2, ["X"; "O"; "X"; "X"; "O"; "O"; "O"; "_"; "_"]) = Diverge.
Proof. intros H7. vm_compute. rewrite H7. reflexivity. Qed.

Lemma maximizer_late :
rec ["X"; "O"; "X"; "X"; "O"; "O"; "O"; "_"; "_"] = Diverge ->
for_each range9 (probe Z.max (fun _ => board_late) "O" rec)
  (-2, board_late) = Diverge.
Proof. intros H6. vm_compute. rewrite H6. reflexivity. Qed.

Lemma try_move_late :
rec ["X"; "O"; "X"; "X"; "O"; "O"; "O"; "_"; "_"] = Diverge ->
for_each range9 (try_move "O" rec) (None, -1, board_late) = Diverge.
Proof. intros H6. vm_compute. rewrite H6. reflexivity. Qed.

End Loops_late.

(** With [self.board] holding X O X / X O O / _ _ _ and the board given
    being another list: the minimizer on X O X / X O O / _ _ O places X at
    7, the maximizer then finds cell 8 empty in [self.board], writes O
    there, and calls the minimizer on the board it came from. *)
Lemma minimax_late_O8 : forall fuel depth,
  minimax fuel computer (OtherList board_late) board_late_O8 depth false =
  Diverge.
Proof.
  induction fuel as [fuel IH] using lt_wf_ind. intros depth.
  destruct fuel as [|[|[|n]]]; try reflexivity.
  rewrite minimax_open by reflexivity. apply minimizer_late_O8.
  - rewrite minimax_unfold. reflexivity.
  - rewrite minimax_open by reflexivity. apply maximizer_late_X7.
    + rewrite minimax_unfold. reflexivity.
    + rewrite minimax_unfold. reflexivity.
    + apply IH. lia.
Qed.

Lemma minimax_late_O6_X7 fuel depth :
  minimax fuel computer (OtherList board_late)
    ["X"; "O"; "X"; "X"; "O"; "O"; "O"; "X"; "_"] depth true = Diverge.
Proof.
  destruct fuel as [|[|[|n]]]; try reflexivity.
  rewrite minimax_open by reflexivity. apply maximizer_late_O6_X7.
  - apply (minimax_fuel_le 2); [lia|reflexivity].
  - rewrite minimax_unfold. reflexivity.
  - apply minimax_late_O8.
Qed.

Lemma minimax_late_O6 fuel depth :
  minimax fuel computer (OtherList board_late)
    ["X"; "O"; "X"; "X"; "O"; "O"; "O"; "_"; "_"] depth false = Diverge.
Proof.
  destruct fuel as [|fuel]; [reflexivity|].
  rewrite minimax_open by reflexivity. apply minimizer_late_O6.
  apply minimax_late_O6_X7.
Qed.

(** C8 (a list that is not [self.board]).  With [self.board] holding
    X O X / X O O / _ _ _ and the board given being a copy of it, neither
    [get_move_helper] nor the maximizer returns, however deep the calls may
    nest: the recursion comes back to the call of the minimizer on
    X O X / X O O / _ _ O, whose board has had one empty cell all along. *)
Theorem minimax_recurses_forever :
  (forall fuel,
     get_move_helper fuel computer (OtherList board_late) board_late =
     Diverge) /\
  (forall fuel depth,
     minimax fuel computer (OtherList board_late) board_late depth true =
     Diverge) /\
  (forall fuel depth,
     minimax fuel computer (OtherList board_late) board_late_O8 depth false =
     Diverge) /\
  length board_late = 9%nat /\ count_empty board_late = 3%nat.
Proof.
  split; [|split; [|split; [exact minimax_late_O8|split; reflexivity]]].
  - intros fuel. rewrite get_move_helper_unfold.
    change (AI.id computer) with "O".
    rewrite try_move_late; [reflexivity|]. apply minimax_late_O6.
  - intros fuel depth. destruct fuel as [|fuel]; [reflexivity|].
    rewrite minimax_open by reflexivity. apply maximizer_late.
    apply minimax_late_O6.
Qed.

(** ** The scenario board X X _ / O O _ / _ _ _ given as a copy *)

Ltac run_loop :=
  intros;
  repeat match goal with
         | H : _ = _ |- _ => progress (vm_compute in H)
         end;
  repeat (vm_compute; match goal with H : _ = _ |- _ => rewrite H end);
  reflexivity.

Section Loops_threat.
Variable rec : list string -> res (Z * list string).

Lemma minimizer_threat_O6_X7 :
rec ["X"; "X"; "X"; "O"; "O"; "_"; "O"; "X"; "_"] =
  Ok (-1, ["X"; "X"; "X"; "O"; "O"; "_"; "O"; "X"; "_"]) ->
rec ["X"; "X"; "_"; "O"; "O"; "X"; "O"; "X"; "_"] = Diverge ->
for_each range9 (probe Z.min (fun b => b) "X" rec)
  (2, ["X"; "X"; "_"; "O"; "O"; "_"; "O"; "X"; "_"]) = Diverge.
Proof. run_loop. Qed.

Lemma maximizer_threat_X5_O6_X7 :
rec ["X"; "X"; "O"; "O"; "O"; "X"; "O"; "X"; "_"] =
  Ok (1, ["X"; "X"; "O"; "O"; "O"; "X"; "O"; "X"; "_"]) ->
rec ["X"; "X"; "_"; "O"; "O"; "O"; "O"; "X"; "_"] =
  Ok (1, ["X"; "X"; "_"; "O"; "O"; "O"; "O"; "X"; "_"]) ->
rec ["X"; "X"; "_"; "O"; "O"; "_"; "O"; "X"; "_"] = Diverge ->
for_each range9 (probe Z.max (fun _ => board_threat) "O" rec)
  (-2, ["X"; "X"; "_"; "O"; "O"; "X"; "O"; "X"; "_"]) = Diverge.
Proof. run_loop. Qed.

Lemma maximizer_threat_O2_X5_X6_X7 :
rec ["X"; "X"; "O"; "O"; "O"; "X"; "X"; "X"; "_"] =
  Ok (-1, ["X"; "X"; "O"; "O"; "O"; "X"; "X"; "X"; "_"]) ->
rec ["X"; "X"; "_"; "O"; "O"; "O"; "X"; "X"; "_"] =
  Ok (1, ["X"; "X"; "_"; "O"; "O"; "O"; "X"; "X"; "_"]) ->
rec ["X"; "X"; "_"; "O"; "O"; "_"; "O"; "X"; "_"] = Diverge ->
for_each range9 (probe Z.max (fun _ => board_threat) "O" rec)
  (-2, ["X"; "X"; "O"; "O"; "O"; "X"; "X"; "X"; "_"]) = Diverge.
Proof. run_loop. Qed.

Lemma minimizer_threat_O2_X5_X6 :
rec ["X"; "X"; "O"; "O"; "O"; "X"; "X"; "X"; "_"] = Diverge ->
for_each range9 (probe Z.min (fun b => b) "X" rec)
  (2, ["X"; "X"; "O"; "O"; "O"; "X"; "X"; "_"; "_"]) = Diverge.
Proof. run_loop. Qed.

Lemma maximizer_threat_O2_X5_X6 :
rec ["X"; "X"; "O"; "O"; "O"; "X"; "X"; "_"; "_"] = Diverge ->
for_each range9 (probe Z.max (fun _ => board_threat) "O" rec)
  (-2, ["X"; "X"; "O"; "O"; "O"; "X"; "X"; "_"; "_"]) = Diverge.
Proof. run_loop. Qed.

Lemma minimizer_threat_O2_X5 :
rec ["X"; "X"; "O"; "O"; "O"; "X"; "X"; "_"; "_"] = Diverge ->
for_each range9 (probe Z.min (fun b => b) "X" rec)
  (2, ["X"; "X"; "O"; "O"; "O"; "X"; "_"; "_"; "_"]) = Diverge.
Proof. run_loop. Qed.

Lemma maximizer_threat_O2_X5 :
rec ["X"; "X"; "O"; "O"; "O"; "X"; "_"; "_"; "_"] = Diverge ->
for_each range9 (probe Z.max (fun _ => board_threat) "O" rec)
  (-2, ["X"; "X"; "O"; "O"; "O"; "X"; "_"; "_"; "_"]) = Diverge.
Proof. run_loop. Qed.

Lemma minimizer_threat_O2 :
rec ["X"; "X"; "O"; "O"; "O"; "X"; "_"; "_"; "_"] = Diverge ->
for_each range9 (probe Z.min (fun b => b) "X" rec)
  (2, ["X"; "X"; "O"; "O"; "O"; "_"; "_"; "_"; "_"]) = Diverge.
Proof. run_loop. Qed.

Lemma try_move_threat :
rec ["X"; "X"; "O"; "O"; "O"; "_"; "_"; "_"; "_"] = Diverge ->
for_each range9 (try_move "O" rec) (None, -1, board_threat) = Diverge.
Proof. run_loop. Qed.

End Loops_threat.

Lemma minimax_threat_O6_X7 : forall fuel depth,
  minimax fuel computer (OtherList board_threat)
    ["X"; "X"; "_"; "O"; "O"; "_"; "O"; "X"; "_"] depth false = Diverge.
Proof.
  induction fuel as [fuel IH] using lt_wf_ind. intros depth.
  destruct fuel as [|[|[|n]]]; try reflexivity.
  rewrite minimax_open by reflexivity. apply minimizer_threat_O6_X7.
  - rewrite minimax_unfold. reflexivity.
  - rewrite minimax_open by reflexivity. apply maximizer_threat_X5_O6_X7.
    + rewrite minimax_unfold. reflexivity.
    + rewrite minimax_unfold. reflexivity.
    + apply IH. lia.
Qed.

Lemma minimax_threat_O2_X5_X6_X7 fuel depth :
  minimax fuel computer (OtherList board_threat)
    ["X"; "X"; "O"; "O"; "O"; "X"; "X"; "X"; "_"] depth true = Diverge.
Proof.
  destruct fuel as [|[|[|n]]]; try reflexivity.
  rewrite minimax_open by reflexivity. apply maximizer_threat_O2_X5_X6_X7.
  - apply (minimax_fuel_le 2); [lia|reflexivity].
  - rewrite minimax_unfold. reflexivity.
  - apply minimax_threat_O6_X7.
Qed.

Lemma minimax_threat_O2_X5_X6 fuel depth ai_turn :
  minimax fuel computer (OtherList board_threat)
    ["X"; "X"; "O"; "O"; "O"; "X"; "X"; "_"; "_"] depth ai_turn = Diverge.
Proof.
  assert (Hmin : forall fuel depth,
            minimax fuel computer (OtherList board_threat)
              ["X"; "X"; "O"; "O"; "O"; "X"; "X"; "_"; "_"] depth false =
            Diverge).
  { intros [|f] d; [reflexivity|].
    rewrite minimax_open by reflexivity. apply minimizer_threat_O2_X5_X6.
    apply minimax_threat_O2_X5_X6_X7. }
  destruct ai_turn; [|apply Hmin].
  destruct fuel as [|fuel]; [reflexivity|].
  rewrite minimax_open by reflexivity. apply maximizer_threat_O2_X5_X6.
  apply Hmin.
Qed.

Lemma minimax_threat_O2_X5 fuel depth ai_turn :
  minimax fuel computer (OtherList board_threat)
    ["X"; "X"; "O"; "O"; "O"; "X"; "_"; "_"; "_"] depth ai_turn = Diverge.
Proof.
  assert (Hmin : forall fuel depth,
            minimax fuel computer (OtherList board_threat)
              ["X"; "X"; "O"; "O"; "O"; "X"; "_"; "_"; "_"] depth false =
            Diverge).
  { intros [|f] d; [reflexivity|].
    rewrite minimax_open by reflexivity. apply minimizer_threat_O2_X5.
    apply minimax_threat_O2_X5_X6. }
  destruct ai_turn; [|apply Hmin].
  destruct fuel as [|fuel]; [reflexivity|].
  rewrite minimax_open by reflexivity. apply maximizer_threat_O2_X5.
  apply Hmin.
Qed.

Lemma minimax_threat_O2 fuel depth :
  minimax fuel computer (OtherList board_threat)
    ["X"; "X"; "O"; "O"; "O"; "_"; "_"; "_"; "_"] depth false = Diverge.
Proof.
  destruct fuel as [|fuel]; [reflexivity|].
  rewrite minimax_open by reflexivity. apply minimizer_threat_O2.
  apply minimax_threat_O2_X5.
Qed.

(** C5 (a list that is not [self.board]).  With [self.board] holding
    _ O X / X O O / O X X and the board given being X O X / X O O / _ _ _,
    [get_move_helper] answers 7 and leaves the board without the X of cell
    0: the maximizer finds cell 0 empty in [self.board], writes O over the X
    and then '_' over the O.  The maximizer alone does the same to
    X O X / X O O / O X _.  Given [self.board] itself the same call gives
    the board back. *)
Theorem search_erases_a_mark :
  get_move_helper 4 computer (OtherList board_other) board_late =
    Ok (Some 7, ["_"; "O"; "X"; "X"; "O"; "O"; "_"; "_"; "_"]) /\
  (forall fuel r,
     get_move_helper fuel computer (OtherList board_other) board_late = Ok r ->
     r = (Some 7, ["_"; "O"; "X"; "X"; "O"; "O"; "_"; "_"; "_"])) /\
  minimax 3 computer (OtherList board_other)
    ["X"; "O"; "X"; "X"; "O"; "O"; "O"; "X"; "_"] 0 true =
    Ok (0, ["_"; "O"; "X"; "X"; "O"; "O"; "O"; "X"; "_"]) /\
  (forall fuel depth r,
     minimax fuel computer (OtherList board_other)
       ["X"; "O"; "X"; "X"; "O"; "O"; "O"; "X"; "_"] depth true = Ok r ->
     r = (0, ["_"; "O"; "X"; "X"; "O"; "O"; "O"; "X"; "_"])) /\
  (exists move,
     get_move_helper 4 computer SameList board_late = Ok (move, board_late)).
Proof.
  assert (H : get_move_helper 4 computer (OtherList board_other) board_late =
              Ok (Some 7, ["_"; "O"; "X"; "X"; "O"; "O"; "_"; "_"; "_"]))
    by (vm_compute; reflexivity).
  assert (Hm : minimax 3 computer (OtherList board_other)
                 ["X"; "O"; "X"; "X"; "O"; "O"; "O"; "X"; "_"] 0 true =
               Ok (0, ["_"; "O"; "X"; "X"; "O"; "O"; "O"; "X"; "_"]))
    by (vm_compute; reflexivity).
  split; [exact H|]. split.
  { intros fuel r Hr. eapply get_move_helper_deterministic; eauto. }
  split; [exact Hm|]. split.
  { intros fuel depth r Hr.
    rewrite (minimax_depth _ _ _ _ depth 0) in Hr.
    eapply minimax_deterministic; eauto. }
  eexists. vm_compute. reflexivity.
Qed.

(** C7 (the answer depends on [self.board]).  On X X _ / O O _ / _ _ _
    with the computer playing O, [get_move_helper] answers 2 when the board
    is [self.board] itself.  Given as another list it does not: with
    [self.board] holding the full board X O X / X O O / O X X the maximizer
    tries nothing, move 2 scores -2 and the answer is 5; with [self.board]
    holding a copy of the scenario board the call never returns. *)
Theorem best_move_reads_own_board :
  get_move_helper 10 computer SameList board_threat =
    Ok (Some 2, board_threat) /\
  get_move_helper 2 computer (OtherList board_draw) board_threat =
    Ok (Some 5, board_threat) /\
  (forall fuel r,
     get_move_helper fuel computer (OtherList board_draw) board_threat = Ok r ->
     r = (Some 5, board_threat)) /\
  (forall fuel depth,
     minimax (S (S fuel)) computer (OtherList board_draw)
       (<[2%nat := "O"]> board_threat) depth false =
     Ok (-2, <[2%nat := "O"]> board_threat)) /\
  (forall fuel,
     get_move_helper fuel computer (OtherList board_threat) board_threat =
     Diverge).
Proof.
  assert (H : get_move_helper 2 computer (OtherList board_draw) board_threat =
              Ok (Some 5, board_threat)) by (vm_compute; reflexivity).
  split; [vm_compute; reflexivity|]. split; [exact H|]. split.
  { intros fuel r Hr. eapply get_move_helper_deterministic; eauto. }
  split.
  { intros fuel depth. apply (minimax_fuel_le 2); [lia|].
    rewrite (minimax_depth _ _ _ _ depth 0). vm_compute. reflexivity. }
  intros fuel. rewrite get_move_helper_unfold.
  change (AI.id computer) with "O".
  rewrite try_move_threat; [reflexivity|]. apply minimax_threat_O2.
Qed.

(** * The score of a board on the computer's own list *)

Lemma value_won board ai_turn :
  check_win board = Ok "O" -> value board ai_turn = 1.
Proof.
  intros H. unfold value. rewrite minimax_unfold, H. reflexivity.
Qed.

Lemma value_full board ai_turn :
  check_win board = Ok "None" -> board_is_full board = Ok true ->
  value board ai_turn = 0.
Proof.
  intros H Hf. unfold value. rewrite minimax_unfold, H. cbn [bind].
  change (String.eqb "None" (AI.opponent computer)) with false.
  change (negb (String.eqb "None" "None")) with false.
  cbv iota. rewrite Hf. reflexivity.
Qed.

Lemma child_value mark board ai_turn k :
  score_of (minimax 10 computer SameList (<[k := mark]> board) (0 + 1) ai_turn) =
  value (<[k := mark]> board) ai_turn.
Proof. unfold value. now rewrite (minimax_depth 10 _ _ _ (0 + 1) 0). Qed.

Lemma value_fuel board : length board = 9%nat -> (count_empty board < 10)%nat.
Proof. intros H. pose proof (count_empty_le_9 board H). lia. Qed.

(** With O to move on a board that is not over, the score is the greatest
    score of O's moves. *)
Lemma value_maximizer board :
  length board = 9%nat -> check_win board = Ok "None" ->
  board_is_full board = Ok false ->
  (forall k, (k < 9)%nat -> empty_at board k = true ->
     value (<[k := "O"]> board) false <= value board true) /\
  (exists k, (k < 9)%nat /\ empty_at board k = true /\
     value board true = value (<[k := "O"]> board) false).
Proof.
  intros Hlen Hw Hf.
  assert (Hid : AI.id computer <> EMPTY) by discriminate.
  destruct (maximizer_loop 9 computer board 0 Hlen Hid (value_fuel _ Hlen) Hf)
    as (v & Hv & _ & Hall & k & Hk & He & Hex).
  assert (Hval : value board true = v).
  { unfold value. rewrite minimax_open by auto.
    change (self_board SameList) with (fun b : list string => b).
    now rewrite Hv. }
  rewrite Hval. change (AI.id computer) with "O" in Hall, Hex.
  split.
  - intros j Hj Hje. rewrite <- child_value. now apply Hall.
  - exists k. rewrite <- child_value. auto.
Qed.

(** With X to move on a board that is not over, the score is the least
    score of X's moves. *)
Lemma value_minimizer board :
  length board = 9%nat -> check_win board = Ok "None" ->
  board_is_full board = Ok false ->
  (forall k, (k < 9)%nat -> empty_at board k = true ->
     value board false <= value (<[k := "X"]> board) true) /\
  (exists k, (k < 9)%nat /\ empty_at board k = true /\
     value board false = value (<[k := "X"]> board) true).
Proof.
  intros Hlen Hw Hf.
  assert (Hid : AI.id computer <> EMPTY) by discriminate.
  destruct (minimizer_loop 9 computer board 0 Hlen Hid (value_fuel _ Hlen) Hf)
    as (v & Hv & _ & Hall & k & Hk & He & Hex).
  assert (Hval : value board false = v).
  { unfold value. rewrite minimax_open by auto. now rewrite Hv. }
  rewrite Hval. change (other_mark computer) with "X" in Hall, Hex.
  split.
  - intros j Hj Hje. rewrite <- child_value. now apply Hall.
  - exists k. rewrite <- child_value. auto.
Qed.

(** * The check is sound *)

Lemma empty_at_lt board k : empty_at board k = true -> (k < length board)%nat.
Proof.
  unfold empty_at. destruct (board !! k) as [c|] eqn:Hc; [|discriminate].
  intros _. eapply lookup_lt_Some. exact Hc.
Qed.

Lemma some_cell_spec f board ks :
  some_cell f board ks = true ->
  exists k, In k ks /\ empty_at board k = true /\ f k = true.
Proof.
  induction ks as [|k ks IH]; simpl; [discriminate|].
  destruct (empty_at board k) eqn:He.
  - destruct (f k) eqn:Hf; [eauto 6|].
    intros H. destruct (IH H) as (j & Hj & Hje & Hjf). eauto 6.
  - intros H. destruct (IH H) as (j & Hj & Hje & Hjf). eauto 6.
Qed.

Lemma every_cell_spec f board ks :
  every_cell f board ks = true ->
  forall k, In k ks -> empty_at board k = true -> f k = true.
Proof.
  induction ks as [|k ks IH]; simpl; [easy|].
  destruct (empty_at board k) eqn:He.
  - destruct (f k) eqn:Hf; [|discriminate].
    intros H j [<-|Hj] Hje; [exact Hf|now apply IH].
  - intros H j [<-|Hj] Hje; [congruence|now apply IH].
Qed.

Lemma not_losing_unfold n order board ai_turn :
  not_losing (S n) order board ai_turn =
  match check_win board with
  | Ok w =>
      if String.eqb w "X" then false
      else if String.eqb w "O" then true
      else match board_is_full board with
           | Ok true => true
           | Ok false =>
               if ai_turn
               then some_cell
                      (fun k => not_losing n order (<[k := "O"]> board) false)
                      board order
               else every_cell
                      (fun k => not_losing n order (<[k := "X"]> board) true)
                      board (seq 0 9)
           | _ => false
           end
  | _ => false
  end.
Proof. reflexivity. Qed.

Lemma not_losing_sound n order : forall board ai_turn,
  length board = 9%nat -> not_losing n order board ai_turn = true ->
  0 <= value board ai_turn.
Proof.
  induction n as [|n IH]; intros board ai_turn Hlen H; [discriminate|].
  rewrite not_losing_unfold in H.
  destruct (check_win_total board Hlen) as [E|[E|E]]; rewrite E in H.
  - discriminate H.
  - rewrite (value_won _ _ E). lia.
  - change (String.eqb "None" "X") with false in H.
    change (String.eqb "None" "O") with false in H. cbv iota in H.
    destruct (board_is_full_spec board Hlen) as (full & Hf & _).
    rewrite Hf in H. destruct full; [rewrite (value_full _ _ E Hf); lia|].
    destruct ai_turn.
    + apply some_cell_spec in H. destruct H as (k & _ & He & Hk).
      apply IH in Hk; [|now rewrite length_insert].
      destruct (value_maximizer board Hlen E Hf) as [Hall _].
      pose proof (empty_at_lt _ _ He).
      specialize (Hall k ltac:(lia) He). lia.
    + destruct (value_minimizer board Hlen E Hf) as (_ & k & Hk & He & ->).
      apply IH; [now rewrite length_insert|].
      apply (every_cell_spec _ _ _ H k); [apply in_seq; lia|exact He].
Qed.

(** On the empty board, X to move, the computer's score is not that of a
    loss. *)
Lemma value_empty_board : 0 <= value empty_board false.
Proof.
  apply (not_losing_sound 10 cell_order); [reflexivity|].
  vm_compute. reflexivity.
Qed.

(** * The computer does not lose *)

Lemma not_lost_value board ai_turn :
  0 <= value board ai_turn -> check_win board <> Ok "X".
Proof. intros Hv Hw. rewrite (value_lost _ _ Hw) in Hv. lia. Qed.

Lemma holds_out_not_lost g : holds_out g -> check_win (Game.board g) <> Ok "X".
Proof.
  intros (_ & [[_ Hv]|[_ Hv]]); now apply not_lost_value in Hv.
Qed.

Lemma holds_out_init : holds_out (Game.init Computer).
Proof.
  split; [reflexivity|]. left. split; [reflexivity|apply value_empty_board].
Qed.

Lemma holds_out_step g g' :
  Game.playerO g = Computer -> holds_out g -> continues g -> turn_step g g' ->
  Game.playerO g' = Computer /\ holds_out g'.
Proof.
  intros Ho (Hlen & Hturn) [Hw _] Hstep.
  destruct (turn_step_moved g g' Hlen Hstep) as (k & Hk & He & -> & Hai).
  split; [exact Ho|]. split; [simpl; now rewrite length_insert|]. simpl.
  destruct Hturn as [[Ht Hv]|[Ht _]]; rewrite Ht in *.
  - right. split; [reflexivity|].
    pose proof (value_min _ k Hlen Hw Hk He). lia.
  - left. split; [reflexivity|]. apply Hai; [discriminate|exact Ho].
Qed.

Lemma reaches_holds_out g :
  reaches (Game.init Computer) g ->
  Game.playerO g = Computer /\ holds_out g.
Proof.
  intros H.
  apply (reaches_invariant (fun g => Game.playerO g = Computer /\ holds_out g))
    with (g := Game.init Computer); [|exact H|].
  - intros g1 g2 [Ho Hh]. now apply holds_out_step.
  - split; [reflexivity|apply holds_out_init].
Qed.

(** * The game goes on until it is over *)

Lemma bump_le_1 c : (bump "X" c + bump "O" c + bump EMPTY c <= 1)%nat.
Proof.
  unfold bump.
  destruct (String.eqb_spec "X" c) as [<-|_]; [reflexivity|].
  destruct (String.eqb_spec "O" c) as [<-|_]; [reflexivity|].
  destruct (String.eqb EMPTY c); simpl; lia.
Qed.

Lemma count_marks_le board :
  (count_mark "X" board + count_mark "O" board + count_empty board <=
   length board)%nat.
Proof.
  unfold count_empty. induction board as [|c board IH]; [reflexivity|].
  rewrite !count_mark_cons. pose proof (bump_le_1 c). simpl length. lia.
Qed.

Lemma count_marks_cells board :
  Forall is_cell board ->
  (count_mark "X" board + count_mark "O" board + count_empty board =
   length board)%nat.
Proof.
  unfold count_empty. induction 1 as [|c board Hc _ IH]; [reflexivity|].
  rewrite !count_mark_cons. simpl length.
  assert (bump "X" c + bump "O" c + bump EMPTY c = 1)%nat
    by (destruct Hc as [->|[->| ->]]; reflexivity).
  lia.
Qed.

Lemma count_empty_cell board :
  (0 < count_empty board)%nat -> exists k, empty_at board k = true.
Proof.
  unfold count_empty.
  induction board as [|c board IH]; [unfold count_mark; simpl; lia|].
  rewrite count_mark_cons. unfold bump.
  destruct (String.eqb_spec EMPTY c) as [<-|_].
  - intros _. exists 0%nat. reflexivity.
  - intros H. destruct (IH H) as [k Hk]. exists (S k). exact Hk.
Qed.

(** While the loop continues some cell is empty. *)
Lemma continues_empty_cell g :
  well_formed g -> continues g ->
  exists k, (k < 9)%nat /\ empty_at (Game.board g) k = true.
Proof.
  intros (Hlen & Hcells & _ & Hcount) [_ Hm].
  pose proof (count_marks_cells _ Hcells) as Hsum. rewrite Hlen in Hsum.
  destruct (count_empty_cell (Game.board g)) as [k Hk]; [lia|].
  exists k. split; [|exact Hk]. rewrite <- Hlen. now apply empty_at_lt.
Qed.

(** Where X is to move, the loop makes a turn for every empty cell. *)
Lemma player_moves g k :
  length (Game.board g) = 9%nat -> Game.turn g = "X" ->
  (k < 9)%nat -> empty_at (Game.board g) k = true ->
  turn_step g (moved g k).
Proof.
  intros Hlen Ht Hk He. exists (Some (Z.of_nat k)), (Game.board g).
  split; [|apply update_at_cell; [reflexivity|lia]].
  apply chooses_playerX; [exact Ht|].
  exists (Some (Z.of_nat k)). split; [|lia].
  unfold Player_get_move.
  destruct (Z.ltb_spec (Z.of_nat k) 0); [lia|].
  destruct (Z.gtb_spec (Z.of_nat k) 8); [lia|]. simpl.
  apply empty_at_getitem in He; [|lia]. now rewrite He.
Qed.

(** Where the computer is to move and the board does not score as lost, it
    answers an empty cell and the loop makes that turn. *)
Lemma computer_moves g :
  holds_out g -> Game.playerO g = Computer -> Game.turn g = "O" ->
  check_win (Game.board g) = Ok "None" ->
  (exists k, (k < 9)%nat /\ empty_at (Game.board g) k = true) ->
  exists k, (k < 9)%nat /\ empty_at (Game.board g) k = true /\
    AI_move 10 computer (Game.board g) =
      Ok (Some (Z.of_nat k), Game.board g) /\
    turn_step g (moved g k).
Proof.
  intros (Hlen & Hturn) Ho Ht Hw (k0 & Hk0 & He0).
  destruct Hturn as [[Hx _]|[_ Hv]]; [congruence|].
  pose proof (empty_at_not_full _ k0 Hlen Hk0 He0) as Hf.
  destruct (value_maximizer _ Hlen Hw Hf) as (_ & k1 & Hk1 & He1 & Hv1).
  assert (Hid : AI.id computer <> EMPTY) by discriminate.
  pose proof (get_move_helper_fold 10 computer (Game.board g) Hlen Hid
                ltac:(pose proof (count_empty_le_9 _ Hlen); lia)) as Hg.
  set (val := fun k : nat => score_of _) in Hg.
  destruct (fold_choice_spec (Game.board g) val (seq 0 9) None (-1))
    as (_ & Hmax & Hr).
  assert (Hbest : 0 <= snd (fold_choice (Game.board g) val (seq 0 9)
                              (None, -1))).
  { specialize (Hmax k1 ltac:(apply in_seq; lia) He1).
    assert (val k1 = value (<[k1 := "O"]> (Game.board g)) false)
      by reflexivity.
    lia. }
  destruct Hr as [Hr|(pre & k & post & Hs & He & Hr & _)];
    rewrite Hr in Hbest, Hg; [simpl in Hbest; lia|].
  assert (Hk : In k (seq 0 9)) by (rewrite Hs; apply in_elt).
  apply in_seq in Hk. simpl in Hg.
  assert (Hai : AI_move 10 computer (Game.board g) =
                Ok (Some (Z.of_nat k), Game.board g)).
  { unfold AI_move, get_move. rewrite Hg. simpl.
    destruct (Z.of_nat k) as [|p|p] eqn:Hz; try reflexivity. lia. }
  exists k. split; [lia|]. split; [exact He|]. split; [exact Hai|].
  exists (Some (Z.of_nat k)), (Game.board g). split.
  - apply chooses_computer with (fuel := 10%nat);
      [congruence|exact Ho|exact Hai].
  - apply update_at_cell; [reflexivity|lia].
Qed.

(** C1.  Against the computer (playerO = AI(self, 'O'), which searches the
    game's own board), whatever X plays: no state of the play loop has a
    line of X; when the loop is over [check_win] answers 'O', or it answers
    'None' with all nine moves made (a tie); while the loop continues a turn
    can be made, the computer answering an empty cell when it is its turn;
    and the loop is over after nine moves at the latest. *)
Theorem computer_never_loses g :
  reaches (Game.init Computer) g ->
  check_win (Game.board g) <> Ok "X" /\
  (~ continues g ->
   check_win (Game.board g) = Ok "O" \/
   (check_win (Game.board g) = Ok "None" /\ Game.moves_count g = 9)) /\
  (continues g ->
   (exists g', turn_step g g') /\
   (Game.turn g = "O" ->
    exists k, (k < 9)%nat /\ empty_at (Game.board g) k = true /\
      AI_move 10 computer (Game.board g) =
        Ok (Some (Z.of_nat k), Game.board g))) /\
  0 <= Game.moves_count g <= 9.
Proof.
  intros H. pose proof (reaches_well_formed _ _ H) as Hwf.
  apply reaches_holds_out in H. destruct H as [Ho H].
  pose proof (holds_out_not_lost g H) as Hx.
  destruct Hwf as (Hlen & Hcells & Hturn & Hcount).
  split; [exact Hx|]. split; [|split].
  - intros Hend.
    destruct (check_win_total _ Hlen) as [E|[E|E]]; [contradiction|now left|].
    right. split; [exact E|].
    destruct (Z.eq_dec (Game.moves_count g) 9) as [Hm|Hm]; [exact Hm|].
    exfalso. apply Hend. now split.
  - intros Hc.
    destruct (continues_empty_cell g) as (k0 & Hk0 & He0);
      [repeat split; assumption|exact Hc|].
    destruct Hturn as [[Ht _]|[Ht _]].
    + split; [|congruence]. exists (moved g k0). now apply player_moves.
    + destruct (computer_moves g H Ho Ht (proj1 Hc)) as (k & Hk & He & Hai & Hs);
        [eauto|].
      split; [eauto|]. intros _. eauto.
  - pose proof (count_marks_le (Game.board g)). lia.
Qed.

Lemma computer_never_loses_witness :
  reaches (Game.init Computer) (moved (Game.init Computer) 0) /\
  check_win (Game.board (moved (Game.init Computer) 0)) <> Ok "X".
Proof.
  assert (H : reaches (Game.init Computer) (moved (Game.init Computer) 0))
    by exact (reaches_after_first_move Computer).
  split; [exact H|].
  exact (proj1 (computer_never_loses _ H)).
Defined.

(** * The human player *)

(** X5.  [Player.get_move] on nine cells never raises: it answers the spot
    typed when that is an integer from 0 to 8 whose cell is '_', and -1 for
    anything else (no integer, out of range, cell taken); so [Player.move]
    returns exactly the indices of the empty cells. *)
Theorem Player_get_move_checks (board : list string) (input : option Z) :
  length board = 9%nat ->
  (exists r, Player_get_move board input = Ok r /\
     ((input = Some r /\ 0 <= r <= 8 /\ getitem board r = Ok EMPTY) \/
      (r = -1 /\
       forall spot, input = Some spot ->
         spot < 0 \/ 8 < spot \/
         exists c, getitem board spot = Ok c /\ c <> EMPTY))) /\
  (forall spot,
     Player_move board spot <->
     0 <= spot <= 8 /\ getitem board spot = Ok EMPTY).
Proof.
  intros Hlen.
  assert (Hget : forall spot, 0 <= spot <= 8 ->
            exists c, getitem board spot = Ok c).
  { intros spot Hs. apply getitem_total; [exact Hlen|unfold in_board; lia]. }
  split.
  - destruct input as [spot|]; simpl.
    + destruct (Z.ltb_spec spot 0); simpl.
      { exists (-1). split; [reflexivity|right]. split; [reflexivity|].
        intros s [= <-]. now left. }
      destruct (Z.gtb_spec spot 8); simpl.
      { exists (-1). split; [reflexivity|right]. split; [reflexivity|].
        intros s [= <-]. right. now left. }
      destruct (Hget spot) as [c Hc]; [lia|]. rewrite Hc. simpl.
      destruct (String.eqb_spec c EMPTY) as [->|Hne]; simpl.
      * exists spot. split; [reflexivity|left]. repeat split; auto; lia.
      * exists (-1). split; [reflexivity|right]. split; [reflexivity|].
        intros s [= <-]. right. right. eauto.
    + exists (-1). split; [reflexivity|right]. split; [reflexivity|].
      discriminate.
  - intros spot. split.
    + intros Hm. destruct (Player_move_cell board spot Hlen Hm)
        as (k & -> & Hk & He).
      split; [lia|]. apply empty_at_getitem; [lia|exact He].
    + intros [Hs Hc]. exists (Some spot). split; [|lia]. simpl.
      destruct (Z.ltb_spec spot 0); [lia|].
      destruct (Z.gtb_spec spot 8); [lia|]. simpl. now rewrite Hc.
Qed.

Lemma Player_get_move_checks_witness :
  exists r, Player_get_move (Game.board game_after_X0) (Some 0) = Ok r /\
            r = -1.
Proof.
  destruct (Player_get_move_checks (Game.board game_after_X0) (Some 0)
              eq_refl) as [(r & Hr & [(Hi & _ & H)|[H _]]) _].
  - injection Hi as <-. vm_compute in H. discriminate H.
  - exists r. split; [exact Hr|exact H].
Defined.

(** * One turn *)

(** X6.  A turn of the play loop that does not raise marks exactly one
    cell, which was empty, with the mark of the player whose turn it was,
    leaves every other cell as it was, counts one move more and hands the
    turn to the other player. *)
Theorem turn_marks_one_empty_cell g g' :
  length (Game.board g) = 9%nat -> turn_step g g' ->
  exists k, (k < 9)%nat /\
    Game.board g !! k = Some EMPTY /\
    Game.board g' = <[k := Game.turn g]> (Game.board g) /\
    Game.board g' !! k = Some (Game.turn g) /\
    (forall j, j <> k -> Game.board g' !! j = Game.board g !! j) /\
    Game.moves_count g' = Game.moves_count g + 1 /\
    Game.turn g' = (if String.eqb (Game.turn g) "X" then "O" else "X") /\
    Game.playerO g' = Game.playerO g.
Proof.
  intros Hlen Hstep.
  destruct (turn_step_moved g g' Hlen Hstep) as (k & Hk & He & -> & _).
  exists k. simpl. repeat split; auto.
  - now apply empty_at_lookup.
  - apply list_lookup_insert_eq. lia.
  - intros j Hj. now apply list_lookup_insert_ne.
Qed.

Lemma turn_marks_one_empty_cell_witness :
  exists k, (k < 9)%nat /\
    Game.board (moved (Game.init Human) 4) =
    <[k := "X"]> (Game.board (Game.init Human)).
Proof.
  destruct (turn_marks_one_empty_cell (Game.init Human)
              (moved (Game.init Human) 4) eq_refl)
    as (k & Hk & _ & Hb & _).
  - apply player_moves; [reflexivity|reflexivity|lia|reflexivity].
  - exists k. split; [exact Hk|exact Hb].
Defined.

(** * The play loop does not get stuck *)

Lemma reaches_playerO o g : reaches (Game.init o) g -> Game.playerO g = o.
Proof.
  intros H.
  apply (reaches_invariant
           (fun g => Game.playerO g = o /\ length (Game.board g) = 9%nat))
    with (g := Game.init o); [|exact H|split; reflexivity].
  intros g1 g2 [Ho Hlen] _ Hstep.
  destruct (turn_step_moved g1 g2 Hlen Hstep) as (k & _ & _ & -> & _).
  split; [exact Ho|]. simpl. now rewrite length_insert.
Qed.

Lemma human_moves g k :
  length (Game.board g) = 9%nat -> Game.turn g = "O" ->
  Game.playerO g = Human ->
  (k < 9)%nat -> empty_at (Game.board g) k = true ->
  turn_step g (moved g k).
Proof.
  intros Hlen Ht Ho Hk He. exists (Some (Z.of_nat k)), (Game.board g).
  split; [|apply update_at_cell; [reflexivity|lia]].
  apply chooses_human; [congruence|exact Ho|].
  exists (Some (Z.of_nat k)). split; [|lia].
  unfold Player_get_move.
  destruct (Z.ltb_spec (Z.of_nat k) 0); [lia|].
  destruct (Z.gtb_spec (Z.of_nat k) 8); [lia|]. simpl.
  apply empty_at_getitem in He; [|lia]. now rewrite He.
Qed.

(** X7.  Between two human players the play loop never gets stuck and never
    runs on: while it continues some cell is empty and every empty cell is a
    turn the player to move can make, and no more than nine moves are ever
    counted. *)
Theorem play_goes_on g :
  reaches (Game.init Human) g ->
  0 <= Game.moves_count g <= 9 /\
  (continues g ->
   (exists k, (k < 9)%nat /\ empty_at (Game.board g) k = true) /\
   (forall k, (k < 9)%nat -> empty_at (Game.board g) k = true ->
      turn_step g (moved g k))).
Proof.
  intros H. pose proof (reaches_well_formed _ _ H) as Hwf.
  pose proof (reaches_playerO _ _ H) as Ho.
  split.
  - destruct Hwf as (_ & _ & _ & ->).
    pose proof (count_marks_le (Game.board g)).
    destruct (reaches_well_formed _ _ H) as (Hlen & _). lia.
  - intros Hc. split; [now apply continues_empty_cell|].
    intros k Hk He. destruct Hwf as (Hlen & _ & [[Ht _]|[Ht _]] & _).
    + now apply player_moves.
    + now apply human_moves.
Qed.

Lemma play_goes_on_witness :
  reaches (Game.init Human) game_after_X0 /\
  0 <= Game.moves_count game_after_X0 <= 9.
Proof.
  assert (H : reaches (Game.init Human) game_after_X0)
    by exact (reaches_after_first_move Human).
  split; [exact H|]. exact (proj1 (play_goes_on _ H)).
Defined.

(** * When the computer has no answer *)

(** X8.  Given [self.board] itself, on nine cells with fuel for the empty
    cells, [get_move_helper] answers [None] exactly when no empty cell
    scores above -1: when the board is full or every move loses. *)
Theorem get_move_helper_none fuel self board :
  length board = 9%nat -> AI.id self <> EMPTY ->
  (count_empty board <= fuel)%nat ->
  (get_move_helper fuel self SameList board = Ok (None, board) <->
   forall k, (k < 9)%nat -> empty_at board k = true ->
     score_of (minimax fuel self SameList (<[k := AI.id self]> board) 0 false)
     <= -1) /\
  (count_empty board = 0%nat ->
   get_move_helper fuel self SameList board = Ok (None, board)).
Proof.
  intros Hlen Hid Hfuel. rewrite get_move_helper_fold by assumption.
  set (val := fun k : nat => score_of _).
  destruct (fold_choice_spec board val (seq 0 9) None (-1))
    as (_ & Hmax & Hr).
  assert (Hiff : Ok (fst (fold_choice board val (seq 0 9) (None, -1)), board) =
                 Ok (None, board) <->
                 forall k, (k < 9)%nat -> empty_at board k = true ->
                   val k <= -1).
  { split.
    - intros Hn k Hk He.
      destruct Hr as [Hr|(pre & j & post & _ & _ & Hr & _)];
        rewrite Hr in Hn, Hmax; [|discriminate Hn].
      apply (Hmax k); [apply in_seq; lia|exact He].
    - intros Hall.
      destruct Hr as [Hr|(pre & j & post & Hs & He & Hr & Hlt & _)];
        [now rewrite Hr|].
      assert (Hj : In j (seq 0 9)) by (rewrite Hs; apply in_elt).
      apply in_seq in Hj. specialize (Hall j ltac:(lia) He). lia. }
  split; [exact Hiff|].
  intros H0. apply Hiff. intros k Hk He.
  assert (HO : AI.id self <> EMPTY) by exact Hid.
  rewrite (count_empty_place board k (AI.id self) He HO) in H0. lia.
Qed.

Lemma get_move_helper_none_witness :
  get_move_helper 0 computer SameList board_draw = Ok (None, board_draw).
Proof.
  destruct (get_move_helper_none 0 computer board_draw) as [_ H];
    [reflexivity|discriminate|vm_compute; lia|].
  apply H. reflexivity.
Defined.

(** * A full board *)

(** X9.  On nine cells [board_is_full] never raises and answers [True]
    exactly when no cell is '_'. *)
Theorem board_is_full_counts board :
  length board = 9%nat ->
  (board_is_full board = Ok true <-> count_empty board = 0%nat) /\
  (board_is_full board = Ok false <-> (0 < count_empty board)%nat).
Proof.
  intros Hlen.
  assert (Hpos : (0 < count_empty board)%nat -> board_is_full board = Ok false).
  { intros H. destruct (count_empty_cell board H) as [k Hk].
    apply (empty_at_not_full board k Hlen); [|exact Hk].
    rewrite <- Hlen. now apply empty_at_lt. }
  assert (Hzero : board_is_full board = Ok false -> (0 < count_empty board)%nat).
  { intros H. destruct (board_not_full_cell board Hlen H) as (k & _ & He).
    assert (HX : "X" <> EMPTY) by discriminate.
    rewrite (count_empty_place board k "X" He HX). lia. }
  destruct (board_is_full_spec board Hlen) as ([|] & Hf & _); rewrite Hf.
  - split; (split; [|intros H]).
    + intros _.
      assert (Hc : (count_empty board = 0 \/ 0 < count_empty board)%nat)
        by lia.
      destruct Hc as [Hc|Hc]; [exact Hc|]. apply Hpos in Hc. congruence.
    + reflexivity.
    + discriminate.
    + apply Hpos in H. congruence.
  - split; (split; [|intros H]).
    + discriminate.
    + specialize (Hzero Hf). lia.
    + intros _. now apply Hzero.
    + reflexivity.
Qed.

Lemma board_is_full_counts_witness :
  board_is_full board_draw = Ok true <-> count_empty board_draw = 0%nat.
Proof.
  destruct (board_is_full_counts board_draw eq_refl) as [H _]. exact H.
Defined.

(** * The search never raises *)






